(** * ml-ui: a shallow embedding of the React front end

    The development follows the JavaScript sources of the repository:

    - [EffectTimeline]  components/visualization/EffectTimeline.jsx
    - [AnalysisStore]   store/analysisStore.js
    - [DatasetSelector] components/data/DatasetSelector.jsx
    - [Select]          components/common/Select.jsx
    - [AnalysisControls] components/analysis/AnalysisControls.jsx
    - [Dashboard]       components/Dashboard.jsx

    and, for what the sources use and do not contain, the design document:

    - [Slider]          the range control of the sensitivity
    - [ThresholdEstimator] the range check of lambda
    - [RequestInterface] the inbound request
    - [Correlation]     the rolling correlation engine

    JavaScript arrays are lists, array indices are [nat], JavaScript objects
    used as records of named fields are [gmap string jsval], and the numbers
    that occur as literals in the sources are rationals. *)

From Stdlib Require Import QArith Qround Qabs Reals Psatz.
From stdpp Require Import gmap strings list fin_maps sorting pretty.

(** ** JavaScript values that occur in the sources *)

Inductive jsval : Type :=
| VUndefined
| VNull
| VBool (b : bool)
| VNum (q : Q)
| VStr (s : string)
| VArr (l : list string)
| VObj (fields : list (string * string))
| VFun (name : string).

(** [Array.prototype.reduce] with the three-argument callback
    [(acc, curr, idx) => ...], scanning from index [idx]. *)
Fixpoint reduce_from {A B : Type} (f : B → A → nat → B)
    (l : list A) (idx : nat) (acc : B) : B :=
  match l with
  | [] => acc
  | curr :: rest => reduce_from f rest (S idx) (f acc curr idx)
  end.

Definition reduce {A B : Type} (f : B → A → nat → B) (l : list A) (init : B) : B :=
  reduce_from f l 0 init.

(** ** EffectTimeline.jsx *)

Module EffectTimeline.

(** The object literal [{ start: idx, end: null }]; [end_] is [None] for
    [null]. *)
Record period : Type := Period { start : nat; end_ : option nat }.

(** JavaScript truthiness of the [end] field: [null] and [0] are falsy. *)
Definition truthy (e : option nat) : bool :=
  match e with
  | None => false
  | Some 0 => false
  | Some (S _) => true
  end.

(** [!acc[acc.length - 1].end]; every use is guarded by a test of
    [acc.length], so the empty case is never evaluated by the source. *)
Definition last_not_ended (acc : list period) : bool :=
  match acc !! (length acc - 1) with
  | Some p => negb (truthy (end_ p))
  | None => true
  end.

(** [!acc.length] *)
Definition no_length (acc : list period) : bool :=
  match acc with [] => true | _ => false end.

(** [acc[acc.length - 1].end = idx] *)
Definition close_last (acc : list period) (idx : nat) : list period :=
  alter (λ p, {| start := start p; end_ := Some idx |}) (length acc - 1) acc.

(** The callback handed to [data.effects.reduce], lines 5-12. *)
Definition step (acc : list period) (curr : bool) (idx : nat) : list period :=
  if curr && (no_length acc || last_not_ended acc) then
    acc ++ [ {| start := idx; end_ := None |} ]
  else if negb curr && negb (no_length acc) && last_not_ended acc then
    close_last acc idx
  else acc.

Definition effectPeriods (effects : list bool) : list period :=
  reduce step effects [].

(** *** The reduction in closed form

    The result of the reduction, by recursion on the series: nothing
    before the first [true]; then one open period for each [true] of the
    first run except its last, and a period for the last that is closed
    one index later, or open when the series ends there. Everything after
    the first run is ignored. *)
Fixpoint opened (s idx : nat) (l : list bool) : list period :=
  match l with
  | [] => [ Period s None ]
  | true :: rest => Period s None :: opened idx (S idx) rest
  | false :: _ => [ Period s (Some idx) ]
  end.

Fixpoint shape (idx : nat) (l : list bool) : list period :=
  match l with
  | [] => []
  | true :: rest => opened idx (S idx) rest
  | false :: rest => shape (S idx) rest
  end.

(** *** The two-state machine of the design document (section 4.4)

    This definition follows the words of the specification, not the
    source: state [Outside] initially; a segment opens at the first index
    where the condition holds, is closed (exclusive) at the first later
    index where it does not, and stays open when the series ends. *)
Inductive detector_state : Type :=
| Outside
| InsideEffect (startIndex : nat).

Fixpoint detector_run (st : detector_state) (idx : nat) (conds : list bool)
    : list period :=
  match conds, st with
  | [], Outside => []
  | [], InsideEffect s => [ {| start := s; end_ := None |} ]
  | true :: rest, Outside => detector_run (InsideEffect idx) (S idx) rest
  | false :: rest, Outside => detector_run Outside (S idx) rest
  | true :: rest, InsideEffect s => detector_run (InsideEffect s) (S idx) rest
  | false :: rest, InsideEffect s =>
      {| start := s; end_ := Some idx |} :: detector_run Outside (S idx) rest
  end.

Definition spec_segments (conds : list bool) : list period :=
  detector_run Outside 0 conds.

(** A period that starts where the condition holds and, when closed, ends
    one index later, where the condition does not hold. *)
Definition sound (effects : list bool) (p : period) : Prop :=
  effects !! start p = Some true
  ∧ ∀ e, end_ p = Some e → e = S (start p) ∧ effects !! e = Some false.

(** The number of indices at which the condition holds. *)
Definition trues (conds : list bool) : nat :=
  length (filter (λ b, b = true) conds).

(** The index range of a segment within a series of [n] points: an open
    segment ([end_ = None]) runs to the end of the series. *)
Definition covers (n : nat) (p : period) (i : nat) : Prop :=
  start p ≤ i ∧ i < default n (end_ p).

Definition overlap (n : nat) (p q : period) : Prop :=
  ∃ i, covers n p i ∧ covers n q i.

End EffectTimeline.

(** *** The same reduction over an object store

    [acc.push({...})] allocates a fresh object and stores a reference to it in
    the array; [acc[acc.length - 1].end = idx] mutates the referenced object
    in place. The store [heap] holds every object of the page, among them
    whatever earlier renders left behind; a reference is a position in it. *)

Module EffectTimelineHeap.
Import EffectTimeline.

(** The [data] prop of the component. *)
Record data : Type := Data {
  dates : list string;
  returns : list Q;
  thresholds : list Q;
  effects : list bool
}.

Abbreviation ref := nat (only parsing).
Abbreviation heap := (list period) (only parsing).

Definition alloc (h : heap) (p : period) : heap * ref := (h ++ [p], length h).

Definition last_not_ended (h : heap) (acc : list ref) : bool :=
  match acc !! (length acc - 1) with
  | Some r =>
      match h !! r with
      | Some p => negb (truthy (end_ p))
      | None => true
      end
  | None => true
  end.

Definition no_length (acc : list ref) : bool :=
  match acc with [] => true | _ => false end.

Definition close_last (h : heap) (acc : list ref) (idx : nat) : heap :=
  match acc !! (length acc - 1) with
  | Some r => alter (λ p, {| start := start p; end_ := Some idx |}) r h
  | None => h
  end.

Definition step (st : heap * list ref) (curr : bool) (idx : nat)
    : heap * list ref :=
  let '(h, acc) := st in
  if curr && (no_length acc || last_not_ended h acc) then
    let '(h', r) := alloc h {| start := idx; end_ := None |} in
    (h', acc ++ [r])
  else if negb curr && negb (no_length acc) && last_not_ended h acc then
    (close_last h acc idx, acc)
  else (h, acc).

(** Lines 5-12: the reduction starts from a fresh array literal [[]]. *)
Definition effectPeriods (h : heap) (d : data) : heap * list ref :=
  reduce step (effects d) (h, []).

(** The objects an array of references holds. *)
Definition deref (st : heap * list ref) : list period :=
  omap (λ r, st.1 !! r) st.2.

(** The array of references [st.2] holds the periods [pacc]; its objects
    are distinct and were all allocated after the store [h0]. *)
Record holds (h0 : heap) (st : heap * list ref) (pacc : list period) : Prop := {
  holds_objects : Forall2 (λ r p, st.1 !! r = Some p) st.2 pacc;
  holds_distinct : NoDup st.2;
  holds_fresh : Forall (λ r, length h0 ≤ r) st.2;
  holds_before : take (length h0) st.1 = h0
}.

End EffectTimelineHeap.

(** ** store/analysisStore.js *)

Module AnalysisStore.
Local Open Scope string_scope.

(** zustand's [set(partial)] merges the partial object into the current
    state, as [Object.assign({}, state, partial)] does: the keys of
    [partial] win, every other key keeps its value. *)
Definition set (partial : gmap string jsval) (state : gmap string jsval)
    : gmap string jsval :=
  partial ∪ state.

Definition setAnalysisResults (results : jsval) : gmap string jsval → gmap string jsval :=
  set {[ "analysisResults" := results ]}.

Definition setIsLoading (loading : jsval) : gmap string jsval → gmap string jsval :=
  set {[ "isLoading" := loading ]}.

Definition setError (error : jsval) : gmap string jsval → gmap string jsval :=
  set {[ "error" := error ]}.

(** The object returned by the initialiser handed to [create], lines 4-11. *)
Definition initial : gmap string jsval :=
  {[ "analysisResults" := VObj [];
     "setAnalysisResults" := VFun "setAnalysisResults";
     "isLoading" := VBool false;
     "setIsLoading" := VFun "setIsLoading";
     "error" := VNull;
     "setError" := VFun "setError" ]}.

(** [useAnalysisStore] is created once, when the module is loaded: every
    component that calls the hook reads the one store of the process. *)
Definition component : Type := string.

Inductive call : Type :=
| CallSetAnalysisResults (results : jsval)
| CallSetIsLoading (loading : jsval)
| CallSetError (error : jsval).

Definition perform (c : call) : gmap string jsval → gmap string jsval :=
  match c with
  | CallSetAnalysisResults results => setAnalysisResults results
  | CallSetIsLoading loading => setIsLoading loading
  | CallSetError error => setError error
  end.

(** The calls that components make, in the order they happen. *)
Definition run (calls : list (component * call)) (state : gmap string jsval)
    : gmap string jsval :=
  foldl (λ s cc, perform cc.2 s) state calls.

Definition writes_results (c : call) : bool :=
  match c with
  | CallSetAnalysisResults _ => true
  | _ => false
  end.

(** What component [who] gets from [useAnalysisStore().analysisResults]. *)
Definition analysisResults (who : component) (state : gmap string jsval)
    : option jsval :=
  state !! "analysisResults".

(** Results that are not shared: what one component reads as the analysis
    results does not depend on what another component has stored. *)
Definition no_shared_results : Prop :=
  ∀ (writer reader : component) (results : jsval) (state : gmap string jsval),
    writer ≠ reader →
    analysisResults reader (run [ (writer, CallSetAnalysisResults results) ] state)
    = analysisResults reader state.

End AnalysisStore.

(** ** components/data/DatasetSelector.jsx *)

Module DatasetSelector.
Local Open Scope string_scope.

(** The target of an event: a [<button>] with the attributes the JSX gives
    it, or the [<select>] with the value of the option the user chose. *)
Inductive target : Type :=
| Button (attributes : gmap string string)
| Select (selected : string).

(** [e.target.value]: for a button its [value] attribute, the empty string
    when it has none; for a select the value of the selected option. *)
Definition value (t : target) : string :=
  match t with
  | Button attributes => default "" (attributes !! "value")
  | Select selected => selected
  end.

(** Lines 66-72: the remove button of the chip of [dataset]. It is given
    [onClick], [className] and [aria-label], and no [value]. *)
Definition remove_button (dataset : string) : target :=
  Button {[ "className" := "bn bg-transparent pointer dark-red mr1 pa0";
            "aria-label" := "Remove dataset" ]}.

(** Lines 8-16; the new value of the [datasets] state. *)
Definition handleDatasetChange (e_target : target) (action : string)
    (datasets : list string) : list string :=
  let selectedDataset := value e_target in
  if String.eqb action "add" then
    datasets ++ [selectedDataset]
  else if String.eqb action "remove" then
    filter (λ d, d ≠ selectedDataset) datasets
  else datasets.

(** Line 50: [onChange={(e) => handleDatasetChange(e, 'add')}] on the
    select, after the user chose the option of [dataset]. *)
Definition change_select (dataset : string) (datasets : list string) : list string :=
  handleDatasetChange (Select dataset) "add" datasets.

(** Line 67: [onClick={(e) => handleDatasetChange(e, 'remove')}] on the
    remove button of the chip of [dataset]. *)
Definition click_remove (dataset : string) (datasets : list string) : list string :=
  handleDatasetChange (remove_button dataset) "remove" datasets.

End DatasetSelector.

(** ** components/common: the Select *)

Module Select.

(** What the [onChange] of the [<select>] hands to the [onChange] prop.
    [selectedOptions] are the values of the selected options: with
    [multiple] the handler reports them as an array, otherwise it reports
    [e.target.value], the value of the first selected option, or the empty
    string when there is none. *)
Definition onChange (multiple : bool) (selectedOptions : list string) : jsval :=
  if multiple then VArr selectedOptions
  else VStr (default EmptyString (head selectedOptions)).

End Select.

(** ** components/common: the Slider *)

Module Slider.

(** Modelled from the spec: the [Slider] component of [components/common]
    is not among the sources; only its use in AnalysisControls.jsx is
    ([min], [max], [step], [value], [onChange]). It is taken to be a range
    control: [onChange] reports one of the stops [min], [min + step],
    [min + 2 step], ... that do not exceed [max]. *)
Definition stops (min max step : Q) : list Q :=
  map (λ k : nat, Qred (min + inject_Z (Z.of_nat k) * step))
      (seq 0 (Z.to_nat (Qfloor ((max - min) / step)) + 1)).

End Slider.

(** ** The parameter check of the threshold estimator *)

Module ThresholdEstimator.

Inductive error : Type := InvalidParameterError.

(** Modelled from the spec: the estimator is not among the sources.
    Section 4.3: "lambda must lie in [1.0, 3.0]; else fails with
    InvalidParameterError". [None] means the check passes. *)
Definition check_lambda (lambda : Q) : option error :=
  if Qle_bool 1 lambda && Qle_bool lambda 3 then None
  else Some InvalidParameterError.

End ThresholdEstimator.

(** ** components/analysis/AnalysisControls.jsx *)

Module AnalysisControls.
Local Open Scope string_scope.

(** Lines 6-13: the initial value of the [params] state. *)
Definition initial : gmap string jsval :=
  {[ "assets" := VArr [];
     "startDate" := VStr "";
     "endDate" := VStr "";
     "analysisType" := VStr "both";
     "lambda" := VNum 2;
     "windowSize" := VNum 30 ]}.

(** Lines 41-45: the [value]s of the options of the second Select. *)
Definition analysisType_options : list string :=
  ["both"; "heat_wave"; "meteor_shower"].

(** Lines 50-52: the props of the Slider. *)
Definition lambda_min : Q := 1.
Definition lambda_max : Q := 3.
Definition lambda_step : Q := 1 # 10.

(** The change events of the four controls: the selected options of the two
    Selects, the two dates of the DateRangePicker, the value of the
    Slider. *)
Inductive event : Type :=
| AssetsChange (selectedOptions : list string)
| DateChange (startDate endDate : jsval)
| AnalysisTypeChange (selectedOptions : list string)
| LambdaChange (value : Q).

Section Controls.
(** [availableAssets] is used on line 27 and defined nowhere in the
    sources. *)
Variable availableAssets : list string.

(** The events that can happen: the selected options of a Select are among
    its options, exactly one of them in the single Select; the Slider
    reports one of its stops. *)
Definition possible (ev : event) : Prop :=
  match ev with
  | AssetsChange selectedOptions => selectedOptions ⊆ availableAssets
  | DateChange _ _ => True
  | AnalysisTypeChange selectedOptions =>
      ∃ value, selectedOptions = [value] ∧ value ∈ analysisType_options
  | LambdaChange value => value ∈ Slider.stops lambda_min lambda_max lambda_step
  end.

(** The [onChange] handlers: [setParams({ ...params, key: value })]. *)
Definition handle (ev : event) (params : gmap string jsval) : gmap string jsval :=
  match ev with
  | AssetsChange selectedOptions =>
      <[ "assets" := Select.onChange true selectedOptions ]> params
  | DateChange startDate endDate =>
      <[ "endDate" := endDate ]> (<[ "startDate" := startDate ]> params)
  | AnalysisTypeChange selectedOptions =>
      <[ "analysisType" := Select.onChange false selectedOptions ]> params
  | LambdaChange value => <[ "lambda" := VNum value ]> params
  end.

(** The states the controls can be in. *)
Inductive reachable : gmap string jsval → Prop :=
| reachable_initial : reachable initial
| reachable_handle ev params :
    reachable params → possible ev → reachable (handle ev params).

(** Lines 15-18: [handleSubmit] hands [params] to [onAnalyze]. *)
Definition handleSubmit (params : gmap string jsval) : gmap string jsval := params.
End Controls.

(** The shape of the [params] object. *)
Definition params_keys : gset string :=
  {[ "assets"; "startDate"; "endDate"; "analysisType"; "lambda"; "windowSize" ]}.

Record complete (params : gmap string jsval) : Prop := {
  complete_keys : dom params = params_keys;
  complete_assets : ∃ values, params !! "assets" = Some (VArr values);
  complete_startDate : is_Some (params !! "startDate");
  complete_endDate : is_Some (params !! "endDate");
  complete_analysisType :
    ∃ t, params !! "analysisType" = Some (VStr t) ∧ t ∈ analysisType_options;
  complete_lambda :
    ∃ l, params !! "lambda" = Some (VNum l) ∧ (lambda_min <= l <= lambda_max)%Q;
  complete_windowSize : params !! "windowSize" = Some (VNum 30)
}.

End AnalysisControls.

(** ** components/Dashboard.jsx *)

Module Dashboard.
Local Open Scope string_scope.

Record state : Type := State {
  windowSize : Q;
  selectedFeatures : list string;
  selectedDataset : string
}.

(** Lines 5-7. *)
Definition initial : state :=
  {| windowSize := 30; selectedFeatures := []; selectedDataset := "" |}.

(** Line 40: [setWindowSize(Number(e.target.value))]. *)
Definition setWindowSize (n : Q) (st : state) : state :=
  {| windowSize := n;
     selectedFeatures := selectedFeatures st;
     selectedDataset := selectedDataset st |}.

(** Lines 16-19: the object that [handleAnalysis] serialises into the body
    of the POST to [/api/analyze]. Neither value is [undefined], so
    [JSON.stringify] keeps both keys. *)
Definition handleAnalysis_body (st : state) : gmap string jsval :=
  {[ "window_size" := VNum (windowSize st);
     "features" := VArr (selectedFeatures st) ]}.

End Dashboard.

(** ** The inbound request interface *)

Module RequestInterface.
Local Open Scope string_scope.

Definition is_integer (q : Q) : Prop := Qred q = inject_Z (Qfloor q).

(** Modelled from the spec: section 6, the inbound request
    [{assetIds: [string], startDate, endDate, windowSize: int,
      analysisType: 'both'|'heat_wave'|'meteor_shower', lambda: float}]. *)
Definition carried_by (body : gmap string jsval) : Prop :=
  (∃ ids, body !! "assetIds" = Some (VArr ids))
  ∧ is_Some (body !! "startDate")
  ∧ is_Some (body !! "endDate")
  ∧ (∃ w, body !! "windowSize" = Some (VNum w) ∧ is_integer w)
  ∧ (∃ t, body !! "analysisType" = Some (VStr t)
          ∧ t ∈ ["both"; "heat_wave"; "meteor_shower"])
  ∧ (∃ l, body !! "lambda" = Some (VNum l)).

End RequestInterface.

(** ** The rolling correlation engine

    The engine is described by the design document only. Returns and
    correlations are exact real numbers here; the rounding of floating-point
    arithmetic is outside the model. *)

Module Correlation.
Local Open Scope R_scope.

Inductive error : Type := InvalidWindowError.

(** An aligned panel: rows in ascending timestamp order, each a timestamp
    and the vector of returns, one per asset, in the order of the request. *)
Definition panel : Type := list (nat * list R).

Fixpoint ascending (ts : list nat) : Prop :=
  match ts with
  | [] => True
  | t :: rest => Forall (λ u, (t < u)%nat) rest ∧ ascending rest
  end.

(** Section 3: every row has exactly one value per asset; timestamps are
    strictly increasing. *)
Definition valid_panel (n : nat) (p : panel) : Prop :=
  Forall (λ row, length row.2 = n) p ∧ ascending (map fst p).

Definition Rsum (xs : list R) : R := foldr Rplus 0 xs.

Definition mean (xs : list R) : R := Rsum xs / INR (length xs).

Definition centred (xs : list R) : list R := map (λ x, x - mean xs) xs.

Definition dot (xs ys : list R) : R := Rsum (zip_with Rmult xs ys).

(** Sample covariance and variance: divisor [n - 1]. *)
Definition covariance (xs ys : list R) : R :=
  dot (centred xs) (centred ys) / (INR (length xs) - 1).

Definition variance (xs : list R) : R := covariance xs xs.

(** Sample Pearson correlation. *)
Definition pearson (xs ys : list R) : R :=
  covariance xs ys / (sqrt (variance xs) * sqrt (variance ys)).

(** The returns of asset [j] in a window. *)
Definition column (j : nat) (window : panel) : list R :=
  map (λ row, nth j row.2 0) window.

(** Modelled from the spec: the engine is not among the sources. Section
    4.2: the sample Pearson correlation of every asset pair over the rows
    of the window; "if any asset's return variance within the window is
    zero, that asset's correlation with every other asset in that window
    is defined as 0 except the diagonal, which remains 1". *)
Definition entry (window : panel) (i j : nat) : R :=
  if Req_dec_T (variance (column i window)) 0 then
    if (i =? j)%nat then 1 else 0
  else if Req_dec_T (variance (column j window)) 0 then
    if (i =? j)%nat then 1 else 0
  else pearson (column i window) (column j window).

Definition matrix (n : nat) (window : panel) : list (list R) :=
  map (λ i, map (λ j, entry window i j) (seq 0 n)) (seq 0 n).

(** Modelled from the spec: section 4.2, [rollingCorrelation]. "windowSize
    must be >= 2 and <= number of rows in panel; else fails with
    InvalidWindowError"; one matrix per window end position [i], from
    [windowSize - 1] to the last row, over "exactly the windowSize most
    recent rows ending at i (inclusive)". *)
Definition rollingCorrelation (n : nat) (p : panel) (windowSize : nat)
    : error + list (nat * list (list R)) :=
  if (windowSize <? 2)%nat || (length p <? windowSize)%nat then
    inl InvalidWindowError
  else
    inr (map (λ k,
               let window := take windowSize (drop k p) in
               (default 0%nat (fst <$> p !! (k + windowSize - 1)%nat),
                matrix n window))
             (seq 0 (length p - windowSize + 1))).

(** The tolerance of section 8. *)
Definition tolerance : R := / 10 ^ 9.

(** The value of a matrix in row [i], column [j]. *)
Definition cell (M : list (list R)) (i j : nat) : R := nth j (nth i M []) 0.

End Correlation.

(** ** EffectTimeline.jsx: what the component draws *)

Module EffectTimelineRender.
Import EffectTimeline EffectTimelineHeap.
Local Open Scope string_scope.

(** The number of elements at the head of a series that equal [b]. *)
Fixpoint leading (b : bool) (l : list bool) : nat :=
  match l with
  | [] => 0
  | c :: rest => if Bool.eqb c b then S (leading b rest) else 0
  end.

(** [Array.prototype.slice(start, end)] for a start index and an [end] that
    is an index or [null]. [null] converts to the number 0, so the slice up
    to [null] is the slice up to index 0. *)
Definition slice {A : Type} (start : nat) (end_ : option nat) (l : list A) : list A :=
  take (default 0 end_ - start) (drop start l).

(** One element of the [data] prop of the plot, lines 17-39. *)
Record trace : Type := Trace {
  x : list string;
  y : list Q;
  name : string;
  type : string;
  mode : string;
  line_dash : option string;
  marker_color : option string
}.

(** The points that the slices of a list of periods select, in order. *)
Definition selected {A : Type} (points : list A) (ps : list period) : list A :=
  concat (map (λ p, slice (start p) (end_ p) points) ps).

(** Lines 32-39: the marker trace of the period at position [i]. *)
Definition effect_trace (d : data) (type : string) (i : nat) (p : period) : trace :=
  {| x := slice (start p) (end_ p) (dates d);
     y := slice (start p) (end_ p) (returns d);
     name := type +:+ " Effect " +:+ pretty (i + 1);
     type := "scatter";
     mode := "markers";
     line_dash := None;
     marker_color := Some "red" |}.

Definition effect_traces (d : data) (type : string) : list trace :=
  imap (effect_trace d type) (EffectTimeline.effectPeriods (effects d)).

(** Lines 16-40: the traces handed to the plot. *)
Definition traces (d : data) (type : string) : list trace :=
  [ {| x := dates d; y := returns d; name := "Returns";
       type := "scatter"; mode := "lines";
       line_dash := None; marker_color := None |};
    {| x := dates d; y := thresholds d; name := "Threshold";
       type := "scatter"; mode := "lines";
       line_dash := Some "dash"; marker_color := None |} ]
  ++ effect_traces d type.

End EffectTimelineRender.

(** ** CorrelationHeatmap.jsx *)

Module CorrelationHeatmap.
Local Open Scope string_scope.

(** One element of [layout.annotations], lines 21-31. [x] and [y] are
    [None] where [data.assets] has no element at the index. *)
Record annotation : Type := Annotation {
  text : string;
  x : option string;
  y : option string;
  font_color : string
}.

(** Line 29: [Math.abs(val) > 0.5 ? 'white' : 'black']. *)
Definition color (val : Q) : string :=
  if Qle_bool (Qabs val) (1 # 2) then "black" else "white".

Section Annotations.
(** [Number.prototype.toFixed] of the language. *)
Variable toFixed : Q → nat → string.

Definition annotate (assets : list string) (i j : nat) (val : Q) : annotation :=
  {| text := toFixed val 2;
     x := assets !! j;
     y := assets !! i;
     font_color := color val |}.

(** Lines 20-32: [correlationMatrix.map((row, i) => row.map(...)).flat()]. *)
Definition annotations (assets : list string) (correlationMatrix : list (list Q))
    : list annotation :=
  concat (imap (λ i row, imap (annotate assets i) row) correlationMatrix).
End Annotations.

End CorrelationHeatmap.

(** ** DatasetSelector.jsx: the state of the component *)

Module DatasetSelectorComponent.
Import DatasetSelector.
Local Open Scope string_scope.

(** Lines 4-6: the three state variables. *)
Record state : Type := State {
  datasets : list string;
  loading : bool;
  error : option string
}.

Definition initial : state :=
  {| datasets := []; loading := true; error := None |}.

(** What the component returns, lines 34-78: the loading notice, the error
    notice, or the select with its options and the chips. The first option
    of the select is the placeholder with the empty value. *)
Inductive view : Type :=
| LoadingView
| ErrorView (message : string)
| MainView (options : list string) (chips : list string).

(** Truthiness of the [error] state: [null] and the empty string are
    falsy. *)
Definition shown_error (e : option string) : option string :=
  match e with
  | Some EmptyString => None
  | other => other
  end.

Definition render (st : state) : view :=
  if loading st then LoadingView
  else match shown_error (error st) with
       | Some message => ErrorView message
       | None => MainView ("" :: datasets st) (datasets st)
       end.

(** The effect of lines 18-32 settles once, with the list of the response
    or with a failure; the user changes the select or clicks the remove
    button of a chip. *)
Inductive event : Type :=
| FetchResolved (response_datasets : list string)
| FetchRejected
| SelectChange (chosen : string)
| RemoveClick (dataset : string).

Definition handle (ev : event) (st : state) : state :=
  match ev with
  | FetchResolved response_datasets =>
      {| datasets := response_datasets; loading := false; error := error st |}
  | FetchRejected =>
      {| datasets := datasets st; loading := false;
         error := Some "Failed to load datasets" |}
  | SelectChange chosen =>
      {| datasets := handleDatasetChange (Select chosen) "add" (datasets st);
         loading := loading st; error := error st |}
  | RemoveClick dataset =>
      {| datasets := handleDatasetChange (remove_button dataset) "remove" (datasets st);
         loading := loading st; error := error st |}
  end.

(** The fetch settles while the component is loading; the select and the
    chips can be used when they are on the page. *)
Definition enabled (ev : event) (st : state) : Prop :=
  match ev with
  | FetchResolved _ | FetchRejected => loading st = true
  | SelectChange chosen =>
      ∃ options chips, render st = MainView options chips ∧ chosen ∈ options
  | RemoveClick dataset =>
      ∃ options chips, render st = MainView options chips ∧ dataset ∈ chips
  end.

Inductive reachable_from (st0 : state) : state → Prop :=
| reachable_here : reachable_from st0 st0
| reachable_next ev st :
    reachable_from st0 st → enabled ev st → reachable_from st0 (handle ev st).

(** The calls of the [onSelect] prop that handling an event makes: the
    component never calls it. *)
Definition onSelect_calls (ev : event) (st : state) : list string := [].

End DatasetSelectorComponent.

(** ** Dashboard.jsx with the selector it renders *)

Module DashboardPage.
Local Open Scope string_scope.

(** Line 7: the setter handed to the selector as [onSelect]. *)
Definition setSelectedDataset (dataset : string) (st : Dashboard.state)
    : Dashboard.state :=
  {| Dashboard.windowSize := Dashboard.windowSize st;
     Dashboard.selectedFeatures := Dashboard.selectedFeatures st;
     Dashboard.selectedDataset := dataset |}.

Record state : Type := State {
  dashboard : Dashboard.state;
  selector : DatasetSelectorComponent.state
}.

Definition initial : state :=
  {| dashboard := Dashboard.initial;
     selector := DatasetSelectorComponent.initial |}.

(** The window-size input reports a number (line 40); the selector handles
    its own events and calls [onSelect] as it does. *)
Inductive event : Type :=
| WindowSizeInput (n : Q)
| Selector (ev : DatasetSelectorComponent.event).

Definition handle (ev : event) (st : state) : state :=
  match ev with
  | WindowSizeInput n =>
      {| dashboard := Dashboard.setWindowSize n (dashboard st);
         selector := selector st |}
  | Selector sev =>
      {| dashboard :=
           foldl (λ d dataset, setSelectedDataset dataset d) (dashboard st)
                 (DatasetSelectorComponent.onSelect_calls sev (selector st));
         selector := DatasetSelectorComponent.handle sev (selector st) |}
  end.

Definition run (evs : list event) (st : state) : state :=
  foldl (λ s ev, handle ev s) st evs.

(** The number in the window-size input after the events: the last one
    reported, 30 before any. *)
Definition last_window_size (evs : list event) : Q :=
  foldl (λ w ev, match ev with WindowSizeInput n => n | Selector _ => w end)
        30%Q evs.

End DashboardPage.

(** ** AnalysisControls.jsx: which control an event comes from *)

Module AnalysisControlsEvents.
Import AnalysisControls.

Inductive control : Type :=
| AssetsSelect | DatePicker | AnalysisTypeSelect | LambdaSlider.

Definition source (ev : event) : control :=
  match ev with
  | AssetsChange _ => AssetsSelect
  | DateChange _ _ => DatePicker
  | AnalysisTypeChange _ => AnalysisTypeSelect
  | LambdaChange _ => LambdaSlider
  end.

End AnalysisControlsEvents.

Example effectPeriods_single_spike :
  EffectTimeline.effectPeriods [false; true; false; false]
  = [ EffectTimeline.Period 1 (Some 2) ].
Proof. reflexivity. Qed.

Example effectPeriods_run_of_two :
  EffectTimeline.effectPeriods [true; true; false; true]
  = [ EffectTimeline.Period 0 None; EffectTimeline.Period 1 (Some 2) ].
Proof. reflexivity. Qed.

Example spec_segments_run_of_two :
  EffectTimeline.spec_segments [true; true; false; true]
  = [ EffectTimeline.Period 0 (Some 2); EffectTimeline.Period 3 None ].
Proof. reflexivity. Qed.

Example click_remove_keeps_named :
  DatasetSelector.click_remove "prices.csv" ["prices.csv"; "fx.parquet"]%string
  = ["prices.csv"; "fx.parquet"]%string.
Proof. reflexivity. Qed.

Example heap_run_of_two :
  EffectTimelineHeap.deref
    (EffectTimelineHeap.effectPeriods [EffectTimeline.Period 7 (Some 9)]
       (EffectTimelineHeap.Data [] [] [] [true; true; false; true]))
  = [ EffectTimeline.Period 0 None; EffectTimeline.Period 1 (Some 2) ].
Proof. reflexivity. Qed.

Example slider_stops_lambda :
  Slider.stops 1 3 (1 # 10)
  = [1; 11 # 10; 6 # 5; 13 # 10; 7 # 5; 3 # 2; 8 # 5; 17 # 10; 9 # 5; 19 # 10; 2;
     21 # 10; 11 # 5; 23 # 10; 12 # 5; 5 # 2; 13 # 5; 27 # 10; 14 # 5; 29 # 10; 3]%Q.
Proof. reflexivity. Qed.

Example anti_correlated_pair :
  Correlation.entry [ (0, [1; 2]%R); (1, [2; 1]%R) ] 0 1 = (-1)%R.
Proof.
  set (w := [ (0, [1; 2]%R); (1, [2; 1]%R) ]).
  assert (Hv0 : Correlation.variance (Correlation.column 0 w) = (1 / 2)%R).
  { unfold Correlation.variance, Correlation.covariance, Correlation.centred,
      Correlation.dot, Correlation.mean, Correlation.Rsum. simpl. field. }
  assert (Hv1 : Correlation.variance (Correlation.column 1 w) = (1 / 2)%R).
  { unfold Correlation.variance, Correlation.covariance, Correlation.centred,
      Correlation.dot, Correlation.mean, Correlation.Rsum. simpl. field. }
  assert (Hc : Correlation.covariance (Correlation.column 0 w)
                 (Correlation.column 1 w) = (- (1 / 2))%R).
  { unfold Correlation.covariance, Correlation.centred,
      Correlation.dot, Correlation.mean, Correlation.Rsum. simpl. field. }
  unfold Correlation.entry.
  destruct (Req_dec_T _ 0) as [H0|_]; [rewrite Hv0 in H0; lra|].
  destruct (Req_dec_T _ 0) as [H1|_]; [rewrite Hv1 in H1; lra|].
  unfold Correlation.pearson. rewrite Hc, Hv0, Hv1.
  rewrite sqrt_def by lra. field.
Qed.

Example marked_point_of_a_run :
  concat (EffectTimelineRender.x <$>
            EffectTimelineRender.effect_traces
              (EffectTimelineHeap.Data ["d0"; "d1"; "d2"; "d3"]%string
                 [1; 5; 6; 1]%Q [2; 2; 2; 2]%Q [false; true; true; false])
              "heat_wave"%string)
  = ["d2"]%string.
Proof. reflexivity. Qed.

(** * Properties *)

(** ** EffectTimeline: what the reduction computes *)

Module EffectTimelineFacts.
Import EffectTimeline.

Lemma last_index_snoc {A} (acc : list A) (x : A) :
  (acc ++ [x]) !! (length (acc ++ [x]) - 1) = Some x.
Proof.
  rewrite length_app. simpl.
  replace (length acc + 1 - 1) with (length acc) by lia.
  by rewrite list_lookup_middle.
Qed.

Lemma no_length_snoc (acc : list period) p : no_length (acc ++ [p]) = false.
Proof. by destruct acc. Qed.

Lemma last_not_ended_snoc acc p :
  last_not_ended (acc ++ [p]) = negb (truthy (end_ p)).
Proof. unfold last_not_ended. by rewrite last_index_snoc. Qed.

Lemma close_last_snoc acc p idx :
  close_last (acc ++ [p]) idx = acc ++ [ Period (start p) (Some idx) ].
Proof.
  unfold close_last. rewrite length_app. simpl.
  replace (length acc + 1 - 1) with (length acc + 0) by lia.
  by rewrite alter_app_r.
Qed.

(** Once the last period has a truthy [end], no later element changes the
    accumulator: no period is ever opened again. *)
Lemma reduce_from_ended l idx acc s e :
  reduce_from step l idx (acc ++ [ Period s (Some (S e)) ])
  = acc ++ [ Period s (Some (S e)) ].
Proof.
  revert idx. induction l as [|curr rest IH]; intros idx; [done|].
  simpl. unfold step at 2.
  rewrite no_length_snoc, last_not_ended_snoc. simpl.
  rewrite !andb_false_r. simpl. apply IH.
Qed.

(** While the last period is open, every [true] pushes another period. *)
Lemma reduce_from_open l idx acc s :
  s < idx →
  reduce_from step l idx (acc ++ [ Period s None ]) = acc ++ opened s idx l.
Proof.
  revert idx acc s. induction l as [|curr rest IH]; intros idx acc s Hs; [done|].
  simpl. unfold step at 2.
  rewrite no_length_snoc, last_not_ended_snoc. simpl.
  destruct curr; simpl.
  - rewrite (IH (S idx) (acc ++ [Period s None]) idx) by lia.
    by rewrite <- (assoc_L (++)).
  - rewrite close_last_snoc. simpl.
    destruct idx as [|e]; [lia|]. apply reduce_from_ended.
Qed.

Lemma reduce_from_empty l idx : reduce_from step l idx [] = shape idx l.
Proof.
  revert idx. induction l as [|curr rest IH]; intros idx; [done|].
  simpl. destruct curr.
  - change (step [] true idx) with ([] ++ [Period idx None]).
    rewrite reduce_from_open by lia. done.
  - apply IH.
Qed.

Lemma effectPeriods_shape effects : effectPeriods effects = shape 0 effects.
Proof. apply reduce_from_empty. Qed.

(** *** What holds of every period the reduction returns *)

Lemma opened_sound l : ∀ pre s,
  length pre = S s → pre !! s = Some true →
  Forall (sound (pre ++ l)) (opened s (S s) l).
Proof.
  induction l as [|curr rest IH]; intros pre s Hlen Hs; simpl.
  - constructor; [|constructor].
    split; simpl; [by apply lookup_app_l_Some | done].
  - destruct curr.
    + constructor.
      * split; simpl; [by apply lookup_app_l_Some | done].
      * replace (pre ++ true :: rest) with ((pre ++ [true]) ++ rest)
          by (by rewrite <- (assoc_L (++))).
        apply IH.
        -- rewrite length_app. simpl. lia.
        -- rewrite <- Hlen. apply list_lookup_middle. done.
    + constructor; [|constructor].
      split; simpl; [by apply lookup_app_l_Some |].
      intros e [= <-]. split; [done|]. by apply list_lookup_middle.
Qed.

Lemma shape_sound l : ∀ pre, Forall (sound (pre ++ l)) (shape (length pre) l).
Proof.
  induction l as [|curr rest IH]; intros pre; simpl; [constructor|].
  replace (pre ++ curr :: rest) with ((pre ++ [curr]) ++ rest)
    by (by rewrite <- (assoc_L (++))).
  destruct curr.
  - apply opened_sound.
    + rewrite length_app. simpl. lia.
    + by apply list_lookup_middle.
  - specialize (IH (pre ++ [false])). rewrite length_app in IH. simpl in IH.
    by replace (length pre + 1) with (S (length pre)) in IH by lia.
Qed.

(** Every period starts at an index where the condition holds; a closed
    period ends one index after its start, at an index where the condition
    does not hold. *)
Lemma effectPeriods_sound effects p :
  p ∈ effectPeriods effects → sound effects p.
Proof.
  rewrite effectPeriods_shape. intros Hp.
  pose proof (shape_sound effects []) as H. simpl in H.
  rewrite Forall_forall in H. by apply H.
Qed.

Lemma opened_starts l : ∀ s idx,
  s < idx → Forall (λ q, s ≤ start q) (opened s idx l).
Proof.
  induction l as [|curr rest IH]; intros s idx Hs; simpl.
  - repeat constructor.
  - destruct curr; [|repeat constructor].
    constructor; [done|].
    eapply Forall_impl; [apply (IH idx (S idx)); lia|]. simpl. lia.
Qed.

Lemma opened_ascending l : ∀ s idx,
  s < idx → StronglySorted (λ p q, start p < start q) (opened s idx l).
Proof.
  induction l as [|curr rest IH]; intros s idx Hs; simpl.
  - repeat constructor.
  - destruct curr; [|repeat constructor].
    constructor; [apply IH; lia|].
    eapply Forall_impl; [apply (opened_starts rest idx (S idx)); lia|].
    simpl. lia.
Qed.

(** The periods come in strictly ascending order of [start]. *)
Lemma effectPeriods_ascending effects :
  StronglySorted (λ p q, start p < start q) (effectPeriods effects).
Proof.
  rewrite effectPeriods_shape. generalize 0.
  induction effects as [|curr rest IH]; intros idx; simpl; [constructor|].
  destruct curr; [apply opened_ascending; lia | apply IH].
Qed.

(** *** Where the reduction and the two-state machine agree *)

Lemma trues_true l : trues (true :: l) = S (trues l).
Proof. done. Qed.

Lemma trues_false l : trues (false :: l) = trues l.
Proof. done. Qed.

Lemma opened_nonempty s idx l : opened s idx l ≠ [].
Proof. by destruct l as [|[] ?]. Qed.

Lemma detector_inside_nonempty l : ∀ s idx,
  detector_run (InsideEffect s) idx l ≠ [].
Proof. induction l as [|[] rest IH]; intros s idx; simpl; [done|apply IH|done]. Qed.

Lemma detector_inside_open_head l : ∀ s idx tl,
  detector_run (InsideEffect s) idx l = Period s None :: tl → tl = [].
Proof.
  induction l as [|[] rest IH]; intros s idx tl; simpl.
  - by intros [= <-].
  - apply IH.
  - done.
Qed.

Lemma detector_outside_silent l : ∀ idx,
  trues l = 0 → detector_run Outside idx l = [].
Proof.
  induction l as [|[] rest IH]; intros idx; simpl; [done|done|].
  intros H. by apply IH.
Qed.

Lemma detector_outside_empty l : ∀ idx,
  detector_run Outside idx l = [] → trues l = 0.
Proof.
  induction l as [|[] rest IH]; intros idx; simpl; [done| |apply IH].
  intros H. by apply detector_inside_nonempty in H.
Qed.

Lemma opened_agrees l s idx :
  opened s idx l = detector_run (InsideEffect s) idx l ↔ trues l = 0.
Proof.
  destruct l as [|[] rest]; simpl.
  - done.
  - split; [|done]. intros H. symmetry in H.
    apply detector_inside_open_head in H. by apply opened_nonempty in H.
  - split.
    + intros [= H]. symmetry in H. by apply detector_outside_empty in H.
    + intros H. by rewrite detector_outside_silent.
Qed.

Lemma shape_agrees l : ∀ idx,
  shape idx l = detector_run Outside idx l ↔ trues l ≤ 1.
Proof.
  induction l as [|[] rest IH]; intros idx; simpl.
  - split; [intros _; unfold trues; simpl; lia | done].
  - rewrite opened_agrees, trues_true. lia.
  - rewrite trues_false. apply IH.
Qed.

(** The reduction returns the segments of the two-state machine exactly
    for the series in which the condition holds at no more than one
    index. *)
Lemma effectPeriods_refines_iff effects :
  effectPeriods effects = spec_segments effects ↔ trues effects ≤ 1.
Proof. rewrite effectPeriods_shape. apply shape_agrees. Qed.

End EffectTimelineFacts.

(** ** EffectTimeline: the claims about the segments *)

Module EffectTimelineClaims.
Import EffectTimeline.

(** C1. The claim: for every series the reduction returns the segments of
    the two-state machine, one per maximal run. On the series
    [true; true] it does not: the machine returns the one open segment
    that starts at index 0, the reduction returns two open periods, one
    for each index of the run. *)
Theorem effectPeriods_departs_from_spec_segments :
  effectPeriods [true; true] = [ Period 0 None; Period 1 None ]
  ∧ spec_segments [true; true] = [ Period 0 None ]
  ∧ effectPeriods [true; true] ≠ spec_segments [true; true].
Proof. repeat split; done. Qed.

(** C2. The claim: the periods are pairwise non-overlapping, ascending in
    start, and closed ones end no earlier than they start. On the series
    [true; true; false] the reduction returns the open period that starts
    at 0 and the closed period from 1 to 2 (exclusive): index 1 lies in
    both. *)
Theorem effectPeriods_periods_overlap :
  effectPeriods [true; true; false] = [ Period 0 None; Period 1 (Some 2) ]
  ∧ overlap 3 (Period 0 None) (Period 1 (Some 2)).
Proof.
  split; [done|]. exists 1. unfold covers. simpl. lia.
Qed.

(** C3. The claim: the condition holds at every index of a returned
    segment, and fails at the end index of a closed one. On the series
    [true; true; false] the reduction returns a period that starts at 0
    and is never closed; it runs to the end of the series and so covers
    index 2, where the condition does not hold. *)
Theorem effectPeriods_open_period_covers_false :
  Period 0 None ∈ effectPeriods [true; true; false]
  ∧ covers (length [true; true; false]) (Period 0 None) 2
  ∧ [true; true; false] !! 2 = Some false.
Proof.
  split; [|split].
  - change (effectPeriods [true; true; false])
      with [ Period 0 None; Period 1 (Some 2) ].
    apply list_elem_of_here.
  - unfold covers. simpl. lia.
  - done.
Qed.

End EffectTimelineClaims.

(** ** EffectTimeline over the object store *)

Module EffectTimelineHeapFacts.
Import EffectTimeline EffectTimelineHeap.

Lemma holds_deref h0 st pacc : holds h0 st pacc → deref st = pacc.
Proof.
  destruct st as [h acc]. intros [H _ _ _]. unfold deref. simpl in *.
  induction H as [|r p acc pacc Hr _ IH]; [done|].
  simpl. rewrite Hr. simpl. f_equal. exact IH.
Qed.

Lemma holds_no_length h0 st pacc :
  holds h0 st pacc → no_length st.2 = EffectTimeline.no_length pacc.
Proof. intros [H _ _ _]. by destruct H. Qed.

Lemma holds_last_not_ended h0 h acc pacc :
  holds h0 (h, acc) pacc →
  last_not_ended h acc = EffectTimeline.last_not_ended pacc.
Proof.
  intros [H _ _ _]. simpl in H.
  unfold last_not_ended, EffectTimeline.last_not_ended.
  rewrite <- (Forall2_length _ _ _ H).
  destruct (acc !! (length acc - 1)) as [r|] eqn:Hr.
  - destruct (Forall2_lookup_l _ _ _ _ _ H Hr) as (p & -> & ->). done.
  - destruct (pacc !! (length acc - 1)) as [p|] eqn:Hp; [|done].
    destruct (Forall2_lookup_r _ _ _ _ _ H Hp) as (r & Hr' & _). congruence.
Qed.

Lemma holds_length h0 st pacc : holds h0 st pacc → length h0 ≤ length st.1.
Proof.
  intros [_ _ _ H]. rewrite <- H at 1. rewrite length_take. lia.
Qed.

Lemma holds_push h0 h acc pacc p :
  holds h0 (h, acc) pacc →
  holds h0 (h ++ [p], acc ++ [length h]) (pacc ++ [p]).
Proof.
  intros Hh. pose proof (holds_length _ _ _ Hh) as Hlen.
  destruct Hh as [H1 H2 H3 H4]. simpl in *. split; simpl.
  - apply Forall2_app.
    + eapply Forall2_impl; [exact H1|]. intros r q Hr. by apply lookup_app_l_Some.
    + repeat constructor. by apply list_lookup_middle.
  - apply NoDup_app. split; [done|]. split; [|apply NoDup_singleton].
    intros r Hr ->%list_elem_of_singleton.
    apply list_elem_of_lookup in Hr as [i Hi].
    destruct (Forall2_lookup_l _ _ _ _ _ H1 Hi) as (q & _ & Hq).
    apply lookup_lt_Some in Hq. lia.
  - apply Forall_app. split; [done|]. repeat constructor. done.
  - rewrite take_app_le by done. done.
Qed.

Lemma holds_close h0 h acc pacc idx :
  acc ≠ [] →
  holds h0 (h, acc) pacc →
  holds h0 (close_last h acc idx, acc) (EffectTimeline.close_last pacc idx).
Proof.
  intros Hne Hh. pose proof (holds_length _ _ _ Hh) as Hlen.
  destruct Hh as [H1 H2 H3 H4]. simpl in *.
  destruct acc as [|r0 acc0 _] using rev_ind; [done|]. clear Hne.
  apply Forall2_app_inv_l in H1 as (pacc0 & plast & H1 & Hlast & ->).
  apply Forall2_cons_inv_l in Hlast as (p & nil & Hp & Hnil & ->).
  apply Forall2_nil_inv_l in Hnil as ->.
  apply NoDup_app in H2 as (Hnd & Hnotin & _).
  apply Forall_app in H3 as (Hf0 & Hf1). rewrite Forall_singleton in Hf1.
  unfold close_last.
  rewrite EffectTimelineFacts.last_index_snoc, EffectTimelineFacts.close_last_snoc.
  split; simpl.
  - apply Forall2_app.
    + apply Forall2_same_length_lookup. split; [by eapply Forall2_length|].
      intros i r q Hr Hq. simpl.
      rewrite list_lookup_alter_ne.
      * destruct (Forall2_lookup_l _ _ _ _ _ H1 Hr) as (q' & Hq' & Hrq). congruence.
      * intros <-. eapply Hnotin; [by eapply list_elem_of_lookup_2|].
        apply list_elem_of_singleton. done.
    + repeat constructor. rewrite list_lookup_alter_eq, Hp. done.
  - apply NoDup_app. split; [done|]. split; [done|apply NoDup_singleton].
  - apply Forall_app. split; [done|]. by rewrite Forall_singleton.
  - rewrite take_alter_ge by done. done.
Qed.

Lemma holds_step h0 st pacc curr idx :
  holds h0 st pacc →
  holds h0 (step st curr idx) (EffectTimeline.step pacc curr idx).
Proof.
  destruct st as [h acc]. intros Hh.
  unfold step, EffectTimeline.step. simpl.
  rewrite (holds_last_not_ended _ _ _ _ Hh).
  pose proof (holds_no_length _ _ _ Hh) as Hnl. simpl in Hnl. rewrite Hnl.
  destruct (curr && _) eqn:Hpush.
  - by apply holds_push.
  - destruct (negb curr && _ && _) eqn:Hclose; [|done].
    apply holds_close; [|done].
    intros ->. simpl in Hnl. rewrite <- Hnl in Hclose.
    by rewrite andb_false_r in Hclose.
Qed.

Lemma holds_reduce_from h0 l : ∀ idx st pacc,
  holds h0 st pacc →
  holds h0 (reduce_from step l idx st) (reduce_from EffectTimeline.step l idx pacc).
Proof.
  induction l as [|curr rest IH]; intros idx st pacc Hh; [done|].
  simpl. apply IH. by apply holds_step.
Qed.

Lemma holds_initial h : holds h (h, []) [].
Proof.
  split; simpl; [constructor|constructor|constructor|].
  by rewrite firstn_all.
Qed.

(** Whatever the store holds when the component renders, the array the
    reduction returns holds the periods of [EffectTimeline.effectPeriods],
    and the objects that were in the store before are left as they
    were. *)
Lemma effectPeriods_heap h d :
  deref (effectPeriods h d) = EffectTimeline.effectPeriods (effects d)
  ∧ take (length h) (effectPeriods h d).1 = h.
Proof.
  pose proof (holds_reduce_from h (effects d) 0 (h, []) [] (holds_initial h)) as Hh.
  split; [by eapply holds_deref | by destruct Hh].
Qed.

End EffectTimelineHeapFacts.

Module EffectTimelineDeterminism.
Import EffectTimeline EffectTimelineHeap.

(** C6. Two runs of the segment computation on inputs with the same
    effects, returns and thresholds return arrays that hold the same
    periods, whatever objects the store held before each run; the result
    depends on nothing else. *)
Theorem effectPeriods_deterministic (h1 h2 : list period) (d1 d2 : data) :
  effects d1 = effects d2 →
  returns d1 = returns d2 →
  thresholds d1 = thresholds d2 →
  deref (effectPeriods h1 d1) = deref (effectPeriods h2 d2).
Proof.
  intros He _ _.
  rewrite (proj1 (EffectTimelineHeapFacts.effectPeriods_heap h1 d1)).
  rewrite (proj1 (EffectTimelineHeapFacts.effectPeriods_heap h2 d2)).
  by rewrite He.
Qed.

Lemma effectPeriods_deterministic_witness :
  deref (effectPeriods [] (Data ["d0"; "d1"; "d2"]%string [1; 5; 1]%Q [2; 2; 2]%Q
                                [false; true; false]))
  = deref (effectPeriods [ Period 4 (Some 6) ]
             (Data ["e0"; "e1"; "e2"]%string [1; 5; 1]%Q [2; 2; 2]%Q
                   [false; true; false])).
Proof.
  apply (effectPeriods_deterministic [] [ Period 4 (Some 6) ]
           (Data ["d0"; "d1"; "d2"]%string [1; 5; 1]%Q [2; 2; 2]%Q
                 [false; true; false])
           (Data ["e0"; "e1"; "e2"]%string [1; 5; 1]%Q [2; 2; 2]%Q
                 [false; true; false])); reflexivity.
Defined.

End EffectTimelineDeterminism.

(** ** The analysis store *)

Module AnalysisStoreFacts.
Import AnalysisStore.
Local Open Scope string_scope.

Lemma set_singleton k v (state : gmap string jsval) :
  set {[ k := v ]} state = <[ k := v ]> state.
Proof. unfold set. by rewrite insert_union_singleton_l. Qed.

Lemma set_singleton_own k v (state : gmap string jsval) :
  set {[ k := v ]} state !! k = Some v.
Proof. rewrite set_singleton. apply lookup_insert_eq. Qed.

Lemma set_singleton_other k k' v (state : gmap string jsval) :
  k ≠ k' → set {[ k := v ]} state !! k' = state !! k'.
Proof. intros H. rewrite set_singleton. by apply lookup_insert_ne. Qed.

Lemma set_singleton_rest k v (state : gmap string jsval) :
  delete k (set {[ k := v ]} state) = delete k state.
Proof. rewrite set_singleton. apply delete_insert_eq. Qed.

(** C10. For every prior state of the store and every argument, each of
    the three setters gives its own field the argument, leaves the two
    other data fields as they were, and leaves every other key of the
    state as it was. *)
Theorem setters_change_own_field_only (state : gmap string jsval) (v : jsval) :
  (setIsLoading v state !! "isLoading" = Some v
   ∧ setIsLoading v state !! "error" = state !! "error"
   ∧ setIsLoading v state !! "analysisResults" = state !! "analysisResults"
   ∧ delete "isLoading" (setIsLoading v state) = delete "isLoading" state)
  ∧ (setError v state !! "error" = Some v
     ∧ setError v state !! "isLoading" = state !! "isLoading"
     ∧ setError v state !! "analysisResults" = state !! "analysisResults"
     ∧ delete "error" (setError v state) = delete "error" state)
  ∧ (setAnalysisResults v state !! "analysisResults" = Some v
     ∧ setAnalysisResults v state !! "isLoading" = state !! "isLoading"
     ∧ setAnalysisResults v state !! "error" = state !! "error"
     ∧ delete "analysisResults" (setAnalysisResults v state)
       = delete "analysisResults" state).
Proof.
  unfold setIsLoading, setError, setAnalysisResults.
  repeat split;
    first [ apply set_singleton_own
          | apply set_singleton_rest
          | by apply set_singleton_other ].
Qed.

Lemma perform_keeps_results c (state : gmap string jsval) :
  writes_results c = false →
  perform c state !! "analysisResults" = state !! "analysisResults".
Proof.
  destruct c; simpl; [done| |]; intros _;
    unfold setIsLoading, setError; by apply set_singleton_other.
Qed.

Lemma run_keeps_results calls : ∀ state : gmap string jsval,
  Forall (λ cc, writes_results cc.2 = false) calls →
  run calls state !! "analysisResults" = state !! "analysisResults".
Proof.
  induction calls as [|cc rest IH]; intros state Hc; [done|].
  apply Forall_cons in Hc as [Hcc Hrest].
  unfold run in *. simpl. rewrite IH by done. by apply perform_keeps_results.
Qed.

(** C5, as the claim states it, fails: results that AnalysisControls
    stores are what CorrelationHeatmap reads next, in place of the empty
    object it read before. *)
Lemma no_shared_results_fails :
  analysisResults "CorrelationHeatmap" initial = Some (VObj [])
  ∧ analysisResults "CorrelationHeatmap"
      (run [ ("AnalysisControls",
              CallSetAnalysisResults (VObj [("assets", "AAPL,MSFT")])) ] initial)
    = Some (VObj [("assets", "AAPL,MSFT")])
  ∧ ¬ no_shared_results.
Proof.
  split; [done|]. split; [done|].
  intros H.
  assert (Hne : "AnalysisControls" ≠ "CorrelationHeatmap") by done.
  specialize (H "AnalysisControls" "CorrelationHeatmap"
                (VObj [("assets", "AAPL,MSFT")]) initial Hne).
  vm_compute in H. discriminate H.
Qed.

(** C5, amended. The store is one object of the module, shared by every
    component: the results that any component hands to
    [setAnalysisResults] are what every component reads from the store
    afterwards, as long as no later call of [setAnalysisResults] replaces
    them; calls of the other two setters leave them in place. *)
Theorem results_shared_through_store
    (writer reader : component) (results : jsval)
    (later : list (component * call)) (state : gmap string jsval) :
  Forall (λ cc, writes_results cc.2 = false) later →
  analysisResults reader
    (run ((writer, CallSetAnalysisResults results) :: later) state)
  = Some results.
Proof.
  intros Hlater. unfold analysisResults.
  change (run ((writer, CallSetAnalysisResults results) :: later) state)
    with (run later (setAnalysisResults results state)).
  rewrite run_keeps_results by done.
  apply set_singleton_own.
Qed.

Lemma results_shared_through_store_witness :
  analysisResults "CorrelationHeatmap"
    (run [ ("AnalysisControls", CallSetAnalysisResults (VObj [("assets", "AAPL,MSFT")]));
           ("AnalysisControls", CallSetIsLoading (VBool false)) ] initial)
  = Some (VObj [("assets", "AAPL,MSFT")]).
Proof.
  apply (results_shared_through_store "AnalysisControls" "CorrelationHeatmap"
           (VObj [("assets", "AAPL,MSFT")])
           [ ("AnalysisControls", CallSetIsLoading (VBool false)) ] initial).
  repeat constructor.
Defined.

End AnalysisStoreFacts.

(** ** The dataset selector *)

Module DatasetSelectorFacts.
Import DatasetSelector.
Local Open Scope string_scope.

Lemma remove_button_value dataset : value (remove_button dataset) = "".
Proof. reflexivity. Qed.

Lemma filter_keeps_all (x : string) (l : list string) :
  x ∉ l → filter (λ d, d ≠ x) l = l.
Proof.
  induction l as [|d rest IH]; intros Hx; [done|].
  apply not_elem_of_cons in Hx as [Hd Hrest].
  rewrite filter_cons_True by done. by rewrite IH.
Qed.

(** C9. The remove button of a chip has no [value], so the handler filters
    by the empty string: for every list of datasets without an empty
    entry, a click on the remove button of any chip leaves the list as it
    was. *)
Theorem click_remove_keeps_list (dataset : string) (datasets : list string) :
  "" ∉ datasets → click_remove dataset datasets = datasets.
Proof.
  intros Hne. unfold click_remove, handleDatasetChange.
  rewrite remove_button_value. simpl. by apply filter_keeps_all.
Qed.

Lemma click_remove_keeps_list_witness :
  click_remove "prices.csv" ["prices.csv"; "fx.parquet"]
  = ["prices.csv"; "fx.parquet"].
Proof.
  apply (click_remove_keeps_list "prices.csv" ["prices.csv"; "fx.parquet"]).
  intros H. repeat (apply elem_of_cons in H as [H|H]; [discriminate H|]).
  by apply elem_of_nil in H.
Defined.

End DatasetSelectorFacts.

(** ** The controls and the request *)

Module SliderFacts.
Local Open Scope Q_scope.

(** Every stop of a slider lies between its [min] and its [max]. *)
Lemma stops_range (min max step v : Q) :
  0 < step → min <= max → v ∈ Slider.stops min max step → min <= v <= max.
Proof.
  intros Hstep Hmm Hv. unfold Slider.stops in Hv.
  apply list_elem_of_fmap in Hv as (k & -> & Hk).
  apply elem_of_seq in Hk as [_ Hk].
  rewrite Qred_correct.
  assert (Hfloor : inject_Z (Z.of_nat k) <= (max - min) / step).
  { apply Qle_trans with (inject_Z (Qfloor ((max - min) / step)));
      [|apply Qfloor_le].
    rewrite <- Zle_Qle.
    assert (0 <= Qfloor ((max - min) / step))%Z; [|lia].
    change 0%Z with (Qfloor 0). apply Qfloor_resp_le.
    clear Hk. apply Qle_shift_div_l; lra. }
  assert (Hk' : inject_Z (Z.of_nat k) * step <= max - min).
  { assert (Heq : (max - min) / step * step == max - min) by (field; lra).
    rewrite <- Heq. apply Qmult_le_compat_r; [done | lra]. }
  assert (0 <= inject_Z (Z.of_nat k) * step).
  { apply Qmult_le_0_compat; [|lra]. change 0 with (inject_Z 0).
    rewrite <- Zle_Qle. lia. }
  lra.
Qed.

Lemma check_lambda_passes (l : Q) :
  1 <= l <= 3 → ThresholdEstimator.check_lambda l = None.
Proof.
  intros [H1 H3]. unfold ThresholdEstimator.check_lambda.
  apply Qle_bool_iff in H1, H3. by rewrite H1, H3.
Qed.

End SliderFacts.

Module AnalysisControlsFacts.
Import AnalysisControls.
Local Open Scope string_scope.

Lemma initial_complete : complete initial.
Proof.
  split; unfold initial.
  - unfold params_keys. rewrite !dom_insert_L, dom_singleton_L. set_solver.
  - by exists [].
  - by eexists.
  - by eexists.
  - exists "both". split; [done|]. apply list_elem_of_here.
  - exists 2%Q. split; [done|]. unfold lambda_min, lambda_max. lra.
  - done.
Qed.

Lemma dom_overwrite k v (params : gmap string jsval) :
  k ∈ params_keys → dom params = params_keys →
  dom (<[ k := v ]> params) = params_keys.
Proof.
  intros Hk Hdom. rewrite dom_insert_lookup_L; [done|].
  apply elem_of_dom. by rewrite Hdom.
Qed.

Lemma handle_complete availableAssets ev params :
  possible availableAssets ev → complete params → complete (handle ev params).
Proof.
  intros Hev [Hdom [a Ha] Hs He [t [Ht Hopt]] [l [Hl Hrange]] Hw].
  destruct ev as [values | startDate endDate | selected | value]; simpl in *.
  - split; simplify_map_eq; eauto.
    apply dom_overwrite; [set_solver | done].
  - split; simplify_map_eq; eauto.
    apply dom_overwrite; [set_solver|]. apply dom_overwrite; [set_solver | done].
  - destruct Hev as (value & -> & Hvalue).
    split; simplify_map_eq; eauto.
    apply dom_overwrite; [set_solver | done].
  - split; simplify_map_eq; eauto.
    + apply dom_overwrite; [set_solver | done].
    + exists value. split; [done|].
      apply (SliderFacts.stops_range _ _ lambda_step); [done | done | done].
Qed.

(** In every state the controls can be in, [params] has its six keys, with
    values of the kinds the controls produce. *)
Lemma reachable_complete availableAssets params :
  reachable availableAssets params → complete params.
Proof.
  induction 1 as [|ev params _ IH Hev]; [apply initial_complete|].
  by eapply handle_complete.
Qed.

(** C7. In every state the controls can be in, the [lambda] of the
    parameters handed to [onAnalyze] is a number between 1.0 and 3.0, and
    the range check of the threshold estimator passes on it. *)
Theorem lambda_never_invalid (availableAssets : list string)
    (params : gmap string jsval) :
  reachable availableAssets params →
  ∃ l : Q,
    handleSubmit params !! "lambda" = Some (VNum l)
    ∧ (1 <= l <= 3)%Q
    ∧ ThresholdEstimator.check_lambda l = None.
Proof.
  intros Hr. apply reachable_complete in Hr.
  destruct (complete_lambda _ Hr) as (l & Hl & Hrange).
  exists l. split; [done|]. split; [done|].
  by apply SliderFacts.check_lambda_passes.
Qed.

Lemma lambda_never_invalid_witness :
  ∃ l : Q,
    handleSubmit (handle (LambdaChange (11 # 10)) initial) !! "lambda"
    = Some (VNum l)
    ∧ (1 <= l <= 3)%Q
    ∧ ThresholdEstimator.check_lambda l = None.
Proof.
  apply (lambda_never_invalid [] (handle (LambdaChange (11 # 10)) initial)).
  apply reachable_handle; [apply reachable_initial|].
  simpl. vm_compute. apply list_elem_of_further, list_elem_of_here.
Defined.

End AnalysisControlsFacts.

Module RequestFacts.
Import AnalysisControls.
Local Open Scope string_scope.

(** C4, as the claim states it, fails: the request that the Dashboard
    sends in its initial state has no [assetIds]. *)
Lemma request_lacks_interface_fields :
  Dashboard.handleAnalysis_body Dashboard.initial !! "assetIds" = None
  ∧ ¬ RequestInterface.carried_by (Dashboard.handleAnalysis_body Dashboard.initial).
Proof.
  split; [done|]. intros [[ids Hids] _]. discriminate Hids.
Qed.

(** C4, amended. In every state of the Dashboard, the body of the request
    to the analyze endpoint has exactly the two fields [window_size], the
    number in the window-size input, and [features], the array of selected
    features. The object with six fields is the [params] of
    AnalysisControls, handed to [onAnalyze]: in every state the controls
    can be in it has exactly the keys [assets] (an array of strings),
    [startDate], [endDate], [windowSize] (the number 30), [analysisType]
    (one of the three option values) and [lambda] (a number). *)
Theorem request_fields (st : Dashboard.state) (availableAssets : list string)
    (params : gmap string jsval) :
  reachable availableAssets params →
  (dom (Dashboard.handleAnalysis_body st) = {[ "window_size"; "features" ]}
   ∧ Dashboard.handleAnalysis_body st !! "window_size"
     = Some (VNum (Dashboard.windowSize st))
   ∧ Dashboard.handleAnalysis_body st !! "features"
     = Some (VArr (Dashboard.selectedFeatures st)))
  ∧ (dom (handleSubmit params)
     = {[ "assets"; "startDate"; "endDate"; "analysisType"; "lambda"; "windowSize" ]}
     ∧ (∃ values, handleSubmit params !! "assets" = Some (VArr values))
     ∧ is_Some (handleSubmit params !! "startDate")
     ∧ is_Some (handleSubmit params !! "endDate")
     ∧ handleSubmit params !! "windowSize" = Some (VNum 30)
     ∧ (∃ t, handleSubmit params !! "analysisType" = Some (VStr t)
             ∧ t ∈ ["both"; "heat_wave"; "meteor_shower"])
     ∧ (∃ l, handleSubmit params !! "lambda" = Some (VNum l))).
Proof.
  intros Hr. split.
  - unfold Dashboard.handleAnalysis_body.
    rewrite dom_insert_L, dom_singleton_L. done.
  - apply AnalysisControlsFacts.reachable_complete in Hr.
    destruct Hr as [Hdom Ha Hs He Ht [l [Hl _]] Hw].
    unfold handleSubmit. repeat split; eauto.
Qed.

Lemma request_fields_witness :
  (dom (Dashboard.handleAnalysis_body Dashboard.initial)
   = {[ "window_size"; "features" ]}
   ∧ Dashboard.handleAnalysis_body Dashboard.initial !! "window_size"
     = Some (VNum (Dashboard.windowSize Dashboard.initial))
   ∧ Dashboard.handleAnalysis_body Dashboard.initial !! "features"
     = Some (VArr (Dashboard.selectedFeatures Dashboard.initial)))
  ∧ (dom (handleSubmit initial)
     = {[ "assets"; "startDate"; "endDate"; "analysisType"; "lambda"; "windowSize" ]}
     ∧ (∃ values, handleSubmit initial !! "assets" = Some (VArr values))
     ∧ is_Some (handleSubmit initial !! "startDate")
     ∧ is_Some (handleSubmit initial !! "endDate")
     ∧ handleSubmit initial !! "windowSize" = Some (VNum 30)
     ∧ (∃ t, handleSubmit initial !! "analysisType" = Some (VStr t)
             ∧ t ∈ ["both"; "heat_wave"; "meteor_shower"])
     ∧ (∃ l, handleSubmit initial !! "lambda" = Some (VNum l))).
Proof.
  apply (request_fields Dashboard.initial [] initial).
  apply reachable_initial.
Defined.

End RequestFacts.

(** ** The correlation matrices *)

Module CorrelationFacts.
Import Correlation.
Local Open Scope R_scope.

Lemma dot_nil_r xs : dot xs [] = 0.
Proof. by destruct xs. Qed.

Lemma dot_nil_l ys : dot [] ys = 0.
Proof. done. Qed.

Lemma dot_cons x xs y ys : dot (x :: xs) (y :: ys) = x * y + dot xs ys.
Proof. done. Qed.

Lemma dot_comm xs : ∀ ys, dot xs ys = dot ys xs.
Proof.
  induction xs as [|x xs IH]; intros [|y ys]; try done.
  rewrite !dot_cons, IH. ring.
Qed.

Lemma dot_self_nonneg xs : 0 <= dot xs xs.
Proof.
  induction xs as [|x xs IH]; [unfold dot; simpl; lra|].
  rewrite dot_cons. nra.
Qed.

(** One step of the Cauchy-Schwarz inequality. *)
Lemma cauchy_schwarz_step (x y S A B : R) :
  0 <= A → 0 <= B → S * S <= A * B →
  (x * y + S) * (x * y + S) <= (x * x + A) * (y * y + B).
Proof.
  intros HA HB HS.
  destruct (Req_dec_T A 0) as [->|HA0].
  - assert (S = 0) by nra. subst S. nra.
  - assert (0 < A) by lra.
    apply Rmult_le_reg_l with A; [done|].
    pose proof (Rle_0_sqr (A * y - x * S)) as H1. unfold Rsqr in H1.
    assert (H2 : 0 <= x * x * (A * B - S * S)) by (apply Rmult_le_pos; nra).
    assert (H3 : 0 <= A * (A * B - S * S)) by (apply Rmult_le_pos; nra).
    nra.
Qed.

Lemma cauchy_schwarz xs : ∀ ys,
  dot xs ys * dot xs ys <= dot xs xs * dot ys ys.
Proof.
  induction xs as [|x xs IH]; intros [|y ys].
  - rewrite !dot_nil_r. lra.
  - rewrite !dot_nil_l. lra.
  - rewrite !dot_nil_r. lra.
  - rewrite !dot_cons. apply cauchy_schwarz_step;
      [apply dot_self_nonneg | apply dot_self_nonneg | apply IH].
Qed.

Lemma length_centred xs : length (centred xs) = length xs.
Proof. unfold centred. apply length_map. Qed.

Lemma covariance_comm xs ys :
  length xs = length ys → covariance xs ys = covariance ys xs.
Proof. intros H. unfold covariance. by rewrite dot_comm, H. Qed.

Section Window.
(** Columns of at least two returns, as every window has. *)
Variables xs ys : list R.
Hypothesis same_length : length xs = length ys.
Hypothesis two_rows : (2 ≤ length xs)%nat.

Lemma divisor_pos : 0 < INR (length xs) - 1.
Proof.
  apply le_INR in two_rows. simpl in two_rows. lra.
Qed.

Lemma variance_nonneg : 0 <= variance xs.
Proof.
  unfold variance, covariance.
  apply Rmult_le_pos; [apply dot_self_nonneg|].
  left. apply Rinv_0_lt_compat, divisor_pos.
Qed.

Lemma covariance_square :
  covariance xs ys * covariance xs ys <= variance xs * variance ys.
Proof.
  unfold variance, covariance. rewrite <- same_length.
  pose proof divisor_pos as Hd.
  pose proof (cauchy_schwarz (centred xs) (centred ys)) as Hcs.
  set (m := INR (length xs) - 1) in *.
  set (S := dot (centred xs) (centred ys)) in *.
  set (A := dot (centred xs) (centred xs)) in *.
  set (B := dot (centred ys) (centred ys)) in *.
  assert (Hm : 0 < / m) by (by apply Rinv_0_lt_compat).
  unfold Rdiv.
  replace (S * / m * (S * / m)) with (S * S * (/ m * / m)) by ring.
  replace (A * / m * (B * / m)) with (A * B * (/ m * / m)) by ring.
  apply Rmult_le_compat_r; [nra | done].
Qed.

Lemma pearson_self : variance xs ≠ 0 → pearson xs xs = 1.
Proof.
  intros Hv. unfold pearson. fold (variance xs).
  rewrite sqrt_def by apply variance_nonneg. by field.
Qed.
End Window.

Lemma pearson_comm xs ys :
  length xs = length ys → pearson xs ys = pearson ys xs.
Proof.
  intros H. unfold pearson. rewrite (covariance_comm xs ys H).
  by rewrite (Rmult_comm (sqrt (variance xs))).
Qed.

Lemma pearson_bound xs ys :
  length xs = length ys → (2 ≤ length xs)%nat →
  variance xs ≠ 0 → variance ys ≠ 0 →
  -1 <= pearson xs ys <= 1.
Proof.
  intros Hlen H2 Hvx Hvy.
  assert (H2' : (2 ≤ length ys)%nat) by (by rewrite <- Hlen).
  pose proof (variance_nonneg xs H2) as Hx.
  pose proof (variance_nonneg ys H2') as Hy.
  pose proof (covariance_square xs ys Hlen H2) as Hc.
  assert (Hsx : 0 < sqrt (variance xs)) by (apply sqrt_lt_R0; lra).
  assert (Hsy : 0 < sqrt (variance ys)) by (apply sqrt_lt_R0; lra).
  pose proof (sqrt_def _ Hx) as Hdx. pose proof (sqrt_def _ Hy) as Hdy.
  unfold pearson.
  set (c := covariance xs ys) in *.
  set (sx := sqrt (variance xs)) in *. set (sy := sqrt (variance ys)) in *.
  assert (Hs : 0 < sx * sy) by (by apply Rmult_lt_0_compat).
  assert (Hsq : c * c <= (sx * sy) * (sx * sy)).
  { replace (sx * sy * (sx * sy)) with ((sx * sx) * (sy * sy)) by ring.
    by rewrite Hdx, Hdy. }
  assert (Hb : - (sx * sy) <= c <= sx * sy) by nra.
  split.
  - apply Rmult_le_reg_r with (sx * sy); [done|].
    replace (c / (sx * sy) * (sx * sy)) with c by (field; lra). lra.
  - apply Rmult_le_reg_r with (sx * sy); [done|].
    replace (c / (sx * sy) * (sx * sy)) with c by (field; lra). lra.
Qed.

(** *** The entries of a matrix *)

Lemma length_column j (window : panel) : length (column j window) = length window.
Proof. unfold column. apply length_map. Qed.

Lemma entry_symmetric (window : panel) i j :
  entry window i j = entry window j i.
Proof.
  unfold entry. rewrite (Nat.eqb_sym j i).
  destruct (Req_dec_T (variance (column i window)) 0),
           (Req_dec_T (variance (column j window)) 0); try done.
  apply pearson_comm. by rewrite !length_column.
Qed.

Lemma entry_diagonal (window : panel) i :
  (2 ≤ length window)%nat → entry window i i = 1.
Proof.
  intros H2. unfold entry. rewrite Nat.eqb_refl.
  destruct (Req_dec_T (variance (column i window)) 0); [done|].
  apply pearson_self; [by rewrite length_column | done].
Qed.

Lemma entry_bound (window : panel) i j :
  (2 ≤ length window)%nat → -1 <= entry window i j <= 1.
Proof.
  intros H2. unfold entry.
  destruct (Req_dec_T (variance (column i window)) 0);
    [destruct (i =? j)%nat; lra|].
  destruct (Req_dec_T (variance (column j window)) 0);
    [destruct (i =? j)%nat; lra|].
  apply pearson_bound; rewrite ?length_column; done.
Qed.

Lemma cell_matrix n (window : panel) i j :
  (i < n)%nat → (j < n)%nat → cell (matrix n window) i j = entry window i j.
Proof.
  intros Hi Hj. unfold cell, matrix.
  rewrite (nth_lookup_Some _ i _ (map (λ j, entry window i j) (seq 0 n))).
  - rewrite (nth_lookup_Some _ j _ (entry window i j)); [done|].
    rewrite list_lookup_fmap, lookup_seq_lt by done. done.
  - rewrite list_lookup_fmap, lookup_seq_lt by done. done.
Qed.

Lemma matrix_square n (window : panel) :
  length (matrix n window) = n
  ∧ Forall (λ row, length row = n) (matrix n window).
Proof.
  unfold matrix. split.
  - by rewrite length_map, length_seq.
  - apply Forall_fmap, Forall_forall. intros i _. simpl.
    by rewrite length_map, length_seq.
Qed.

(** *** The rolling sequence *)

(** A window size within the bounds gives one matrix per window end. *)
Lemma rollingCorrelation_total n (p : panel) windowSize :
  (2 ≤ windowSize ≤ length p)%nat →
  ∃ ms, rollingCorrelation n p windowSize = inr ms
        ∧ length ms = (length p - windowSize + 1)%nat.
Proof.
  intros [H2 Hle]. unfold rollingCorrelation.
  destruct (windowSize <? 2)%nat eqn:E1; [apply Nat.ltb_lt in E1; lia|].
  destruct (length p <? windowSize)%nat eqn:E2; [apply Nat.ltb_lt in E2; lia|].
  simpl. eexists. split; [done|]. by rewrite length_map, length_seq.
Qed.

Lemma rollingCorrelation_invalid n (p : panel) windowSize :
  (windowSize < 2 ∨ length p < windowSize)%nat →
  rollingCorrelation n p windowSize = inl InvalidWindowError.
Proof.
  intros H. unfold rollingCorrelation.
  destruct (windowSize <? 2)%nat eqn:E1; [done|].
  destruct (length p <? windowSize)%nat eqn:E2; [done|].
  apply Nat.ltb_ge in E1, E2. lia.
Qed.

Lemma rollingCorrelation_window n (p : panel) windowSize ms t M :
  rollingCorrelation n p windowSize = inr ms → (t, M) ∈ ms →
  ∃ window : panel, M = matrix n window ∧ (2 ≤ length window)%nat.
Proof.
  unfold rollingCorrelation.
  destruct (windowSize <? 2)%nat eqn:E1; [done|].
  destruct (length p <? windowSize)%nat eqn:E2; [done|].
  apply Nat.ltb_ge in E1, E2. simpl. intros [= <-] Hin.
  apply list_elem_of_fmap in Hin as (k & [= -> ->] & Hk).
  apply elem_of_seq in Hk as [_ Hk].
  eexists. split; [done|].
  rewrite length_take, length_drop. lia.
Qed.

(** What C8 asks of a matrix over [n] assets: square, symmetric, diagonal
    within the tolerance of 1, off-diagonal values within the tolerance of
    the interval from -1 to 1. *)
Lemma matrix_valid n (window : panel) :
  (2 ≤ length window)%nat →
  (length (matrix n window) = n
   ∧ Forall (λ row, length row = n) (matrix n window))
  ∧ (∀ i j, (i < n)%nat → (j < n)%nat →
       cell (matrix n window) i j = cell (matrix n window) j i)
  ∧ (∀ i, (i < n)%nat → Rabs (cell (matrix n window) i i - 1) <= tolerance)
  ∧ (∀ i j, (i < n)%nat → (j < n)%nat → i ≠ j →
       -1 - tolerance <= cell (matrix n window) i j <= 1 + tolerance).
Proof.
  intros H2.
  assert (Htol : 0 < tolerance).
  { unfold tolerance. apply Rinv_0_lt_compat. apply pow_lt. lra. }
  split; [apply matrix_square|]. split; [|split].
  - intros i j Hi Hj. rewrite !cell_matrix by done. apply entry_symmetric.
  - intros i Hi. rewrite cell_matrix by done.
    rewrite entry_diagonal by done.
    replace (1 - 1) with 0 by ring. rewrite Rabs_R0. lra.
  - intros i j Hi Hj _. rewrite cell_matrix by done.
    pose proof (entry_bound window i j H2). lra.
Qed.

(** C8. For every valid aligned panel over [n] assets and every window size
    from 2 to the number of rows, the engine returns one matrix per window
    end, and each of them is square of size [n], is symmetric, has every
    diagonal value within 1e-9 of 1, and has every off-diagonal value
    between -1 - 1e-9 and 1 + 1e-9, so in particular the values of the
    pairs with non-zero variance in the window. *)
Theorem correlation_matrix_valid (n : nat) (p : panel) (windowSize : nat) :
  valid_panel n p →
  (2 ≤ windowSize ≤ length p)%nat →
  ∃ ms : list (nat * list (list R)),
    rollingCorrelation n p windowSize = inr ms
    ∧ length ms = (length p - windowSize + 1)%nat
    ∧ ∀ (t : nat) (M : list (list R)), (t, M) ∈ ms →
        (length M = n ∧ Forall (λ row, length row = n) M)
        ∧ (∀ i j, (i < n)%nat → (j < n)%nat → cell M i j = cell M j i)
        ∧ (∀ i, (i < n)%nat → Rabs (cell M i i - 1) <= tolerance)
        ∧ (∀ i j, (i < n)%nat → (j < n)%nat → i ≠ j →
             -1 - tolerance <= cell M i j <= 1 + tolerance).
Proof.
  intros _ Hw.
  destruct (rollingCorrelation_total n p windowSize Hw) as (ms & Hms & Hlen).
  exists ms. split; [done|]. split; [done|].
  intros t M Hin.
  destruct (rollingCorrelation_window _ _ _ _ _ _ Hms Hin) as (window & -> & H2).
  by apply matrix_valid.
Qed.

Lemma correlation_matrix_valid_witness :
  ∃ ms : list (nat * list (list R)),
    rollingCorrelation 2 [ (0%nat, [1; 2]); (1%nat, [2; 1]) ] 2 = inr ms
    ∧ length ms = (length [ (0%nat, [1; 2]); (1%nat, [2; 1]) ] - 2 + 1)%nat
    ∧ ∀ (t : nat) (M : list (list R)), (t, M) ∈ ms →
        (length M = 2%nat ∧ Forall (λ row, length row = 2%nat) M)
        ∧ (∀ i j, (i < 2)%nat → (j < 2)%nat → cell M i j = cell M j i)
        ∧ (∀ i, (i < 2)%nat → Rabs (cell M i i - 1) <= tolerance)
        ∧ (∀ i j, (i < 2)%nat → (j < 2)%nat → i ≠ j →
             -1 - tolerance <= cell M i j <= 1 + tolerance).
Proof.
  apply (correlation_matrix_valid 2 [ (0%nat, [1; 2]); (1%nat, [2; 1]) ] 2).
  - split; simpl; repeat constructor.
  - simpl. lia.
Defined.

End CorrelationFacts.

(** * Further properties of the sources *)

(** ** EffectTimeline: the periods *)

Module EffectTimelinePeriods.
Import EffectTimeline EffectTimelineRender.

Lemma reduce_from_app {A B} (f : B → A → nat → B) l1 : ∀ l2 idx acc,
  reduce_from f (l1 ++ l2) idx acc
  = reduce_from f l2 (idx + length l1) (reduce_from f l1 idx acc).
Proof.
  induction l1 as [|a l1 IH]; intros l2 idx acc; simpl.
  - by rewrite Nat.add_0_r.
  - rewrite IH. f_equal. lia.
Qed.

Lemma opened_start_list l : ∀ s idx,
  map start (opened s idx l) = s :: seq idx (leading true l).
Proof.
  induction l as [|[] rest IH]; intros s idx; simpl; [done| |done].
  by rewrite IH.
Qed.

Lemma shape_start_list l : ∀ idx,
  map start (shape idx l)
  = seq (idx + leading false l) (leading true (drop (leading false l) l)).
Proof.
  induction l as [|[] rest IH]; intros idx; simpl.
  - done.
  - rewrite opened_start_list, Nat.add_0_r. done.
  - rewrite IH. f_equal. lia.
Qed.

Lemma opened_all_but_last_open l : ∀ s idx i p,
  opened s idx l !! i = Some p → S i < length (opened s idx l) → end_ p = None.
Proof.
  induction l as [|[] rest IH]; intros s idx i p Hi Hlen; simpl in *.
  - lia.
  - destruct i as [|i]; simpl in Hi.
    + by injection Hi as <-.
    + eapply IH; [exact Hi | lia].
  - lia.
Qed.

(** X1. Every period the reduction returns starts at an index where the
    effect holds; a period with an end ends at the index after its start,
    and the effect does not hold there. *)
Theorem period_start_and_end (effects : list bool) (p : period) :
  p ∈ effectPeriods effects →
  effects !! start p = Some true
  ∧ ∀ e, end_ p = Some e → e = S (start p) ∧ effects !! e = Some false.
Proof. apply EffectTimelineFacts.effectPeriods_sound. Qed.

Lemma period_start_and_end_witness :
  [false; true; false] !! start (Period 1 (Some 2)) = Some true
  ∧ ∀ e, end_ (Period 1 (Some 2)) = Some e →
         e = S (start (Period 1 (Some 2))) ∧ [false; true; false] !! e = Some false.
Proof.
  apply (period_start_and_end [false; true; false] (Period 1 (Some 2))).
  vm_compute. apply list_elem_of_here.
Defined.

Lemma period_starts_list (effects : list bool) :
  map start (effectPeriods effects)
  = seq (leading false effects)
        (leading true (drop (leading false effects) effects)).
Proof.
  rewrite EffectTimelineFacts.effectPeriods_shape.
  apply (shape_start_list effects 0).
Qed.

(** X2. The periods start at consecutive indices: at each index of the
    first run of effects, from its first index on, and nowhere else. *)
Theorem period_starts (effects : list bool) :
  map start (effectPeriods effects)
  = seq (leading false effects)
        (leading true (drop (leading false effects) effects)).
Proof. apply period_starts_list. Qed.

(** X3. Only the last period can have an end: every period before the last
    has [end] equal to [null]. *)
Theorem periods_before_last_open (effects : list bool) (i : nat) (p : period) :
  effectPeriods effects !! i = Some p →
  S i < length (effectPeriods effects) →
  end_ p = None.
Proof.
  rewrite EffectTimelineFacts.effectPeriods_shape. generalize 0.
  induction effects as [|[] rest IH]; intros idx; simpl.
  - done.
  - apply opened_all_but_last_open.
  - apply IH.
Qed.

Lemma periods_before_last_open_witness :
  end_ (Period 0 None) = None.
Proof.
  apply (periods_before_last_open [true; true; false] 0 (Period 0 None)).
  - reflexivity.
  - vm_compute. lia.
Defined.

(** X4. Once the last period has an end, the rest of the series is
    ignored: whatever follows, the result is the same. *)
Theorem effects_after_end_ignored (effects rest : list bool) (p : period) (e : nat) :
  last (effectPeriods effects) = Some p →
  end_ p = Some e →
  effectPeriods (effects ++ rest) = effectPeriods effects.
Proof.
  intros Hlast He.
  assert (Hin : p ∈ effectPeriods effects) by (by eapply last_Some_elem_of).
  destruct (EffectTimelineFacts.effectPeriods_sound _ _ Hin) as [_ Hend].
  destruct (Hend e He) as [-> _].
  apply last_Some in Hlast as [acc Hacc].
  unfold effectPeriods, reduce in *.
  rewrite reduce_from_app, Hacc.
  destruct p as [s pe]. simpl in He. subst pe.
  apply EffectTimelineFacts.reduce_from_ended.
Qed.

Lemma effects_after_end_ignored_witness :
  effectPeriods ([true; false] ++ [true; true; false])
  = effectPeriods [true; false].
Proof.
  apply (effects_after_end_ignored [true; false] [true; true; false]
           (Period 0 (Some 1)) 1); reflexivity.
Defined.

End EffectTimelinePeriods.

(** ** EffectTimeline: the marker traces *)

Module EffectTimelineTraces.
Import EffectTimeline EffectTimelineHeap EffectTimelineRender.

Section Slices.
Context {A : Type}.
Variable points : list A.

Lemma selected_opened l : ∀ s,
  selected points (opened s (S s) l)
  = if leading true l <? length l
    then take 1 (drop (s + leading true l) points)
    else [].
Proof.
  unfold selected.
  induction l as [|[] rest IH]; intros s; simpl.
  - unfold slice. simpl. done.
  - rewrite IH.
    replace (S s + leading true rest) with (s + S (leading true rest)) by lia.
    done.
  - unfold slice. simpl. rewrite Nat.add_0_r, app_nil_r.
    by replace (S s - s) with 1 by lia.
Qed.

Lemma selected_shape l : ∀ idx,
  selected points (shape idx l)
  = if (0 <? leading true (drop (leading false l) l))
       && (leading false l + leading true (drop (leading false l) l) <? length l)
    then take 1 (drop (idx + leading false l
                       + leading true (drop (leading false l) l) - 1) points)
    else [].
Proof.
  induction l as [|[] rest IH]; intros idx; simpl.
  - done.
  - rewrite selected_opened.
    replace (idx + 0 + S (leading true rest) - 1) with (idx + leading true rest)
      by lia.
    done.
  - rewrite IH.
    replace (S idx + leading false rest
             + leading true (drop (leading false rest) rest) - 1)
      with (idx + S (leading false rest)
            + leading true (drop (leading false rest) rest) - 1) by lia.
    done.
Qed.
End Slices.

Lemma effect_traces_x d type :
  concat (x <$> effect_traces d type)
  = selected (dates d) (EffectTimeline.effectPeriods (effects d)).
Proof.
  unfold effect_traces, selected. f_equal.
  apply list_eq. intros i.
  rewrite list_lookup_fmap, list_lookup_imap, list_lookup_fmap.
  by destruct (EffectTimeline.effectPeriods (effects d) !! i).
Qed.

Lemma effect_traces_y d type :
  concat (y <$> effect_traces d type)
  = selected (returns d) (EffectTimeline.effectPeriods (effects d)).
Proof.
  unfold effect_traces, selected. f_equal.
  apply list_eq. intros i.
  rewrite list_lookup_fmap, list_lookup_imap, list_lookup_fmap.
  by destruct (EffectTimeline.effectPeriods (effects d) !! i).
Qed.

(** X5. All marker traces together hold at most one point. With [a] the
    number of indices before the first effect and [b] the length of the
    first run of effects, it is the point at index [a + b - 1], the last
    index of that run, and it is there only when the run is not empty and
    is followed by an index without effect; otherwise no point is marked at
    all. The same holds of the dates and of the returns. *)
Theorem marked_points (d : data) (type : string) :
  let a := leading false (effects d) in
  let b := leading true (drop a (effects d)) in
  concat (x <$> effect_traces d type)
  = (if (0 <? b) && (a + b <? length (effects d))
     then take 1 (drop (a + b - 1) (dates d)) else [])
  ∧ concat (y <$> effect_traces d type)
    = (if (0 <? b) && (a + b <? length (effects d))
       then take 1 (drop (a + b - 1) (returns d)) else []).
Proof.
  simpl. rewrite effect_traces_x, effect_traces_y.
  rewrite EffectTimelineFacts.effectPeriods_shape.
  split; apply selected_shape.
Qed.

(** X6. The marker traces are as many as the periods and carry pairwise
    different names. *)
Theorem effect_trace_names (d : data) (type : string) :
  length (effect_traces d type) = length (EffectTimeline.effectPeriods (effects d))
  ∧ NoDup (name <$> effect_traces d type).
Proof.
  unfold effect_traces. split; [apply length_imap|].
  apply NoDup_alt. intros i j s.
  rewrite !list_lookup_fmap, !list_lookup_imap.
  destruct (EffectTimeline.effectPeriods (effects d) !! i) as [p|]; [|done].
  destruct (EffectTimeline.effectPeriods (effects d) !! j) as [q|]; [|done].
  simpl. intros [= <-] [= H].
  apply (inj (String.app type)) in H.
  apply (inj (String.app " Effect "%string)) in H.
  apply (inj pretty) in H. lia.
Qed.

(** X20. The plot gets the two line traces and one marker trace for each
    index of the first run of effects: with a first run of [b] indices,
    [2 + b] traces in all, however many effects follow that run. *)
Theorem traces_count (d : data) (type : string) :
  length (traces d type)
  = 2 + leading true (drop (leading false (effects d)) (effects d)).
Proof.
  unfold traces, effect_traces. rewrite length_app, length_imap. simpl.
  rewrite <- (length_map start), EffectTimelinePeriods.period_starts_list.
  by rewrite length_seq.
Qed.

End EffectTimelineTraces.

(** ** EffectTimeline: the objects of the returned array *)

Module EffectTimelineObjects.
Import EffectTimeline EffectTimelineHeap.

Lemma step_allocations n st curr idx :
  length st.1 = n + length st.2 →
  length (step st curr idx).1 = n + length (step st curr idx).2.
Proof.
  destruct st as [h acc]. unfold step. simpl. intros H.
  destruct (curr && _).
  - simpl. rewrite !length_app. simpl. lia.
  - destruct (negb curr && _ && _); simpl; [|done].
    unfold close_last. destruct (acc !! _); [|done].
    by rewrite length_alter.
Qed.

Lemma reduce_from_allocations n l : ∀ idx st,
  length st.1 = n + length st.2 →
  length (reduce_from step l idx st).1
  = n + length (reduce_from step l idx st).2.
Proof.
  induction l as [|curr rest IH]; intros idx st H; [done|].
  simpl. apply IH. by apply step_allocations.
Qed.

(** X7. The array that the reduction returns refers to pairwise different
    objects, all of them allocated during the call, one allocation for
    each element of the array and no other; the objects that were in the
    store before the call are left as they were. *)
Theorem periods_are_fresh_objects (h : list period) (d : data) :
  NoDup (effectPeriods h d).2
  ∧ Forall (λ r, length h ≤ r < length (effectPeriods h d).1) (effectPeriods h d).2
  ∧ length (effectPeriods h d).1 = length h + length (effectPeriods h d).2
  ∧ take (length h) (effectPeriods h d).1 = h.
Proof.
  pose proof (EffectTimelineHeapFacts.holds_reduce_from h (effects d) 0 (h, []) []
                (EffectTimelineHeapFacts.holds_initial h)) as [Hobj Hnd Hfresh Hbefore].
  fold (reduce step (effects d) (h, [])) in *. fold (effectPeriods h d) in *.
  split; [done|]. split; [|split; [|done]].
  - apply Forall_forall. intros r Hr. split.
    + rewrite Forall_forall in Hfresh. by apply Hfresh.
    + apply list_elem_of_lookup in Hr as [i Hi].
      destruct (Forall2_lookup_l _ _ _ _ _ Hobj Hi) as (p & _ & Hp).
      by apply lookup_lt_Some in Hp.
  - apply (reduce_from_allocations (length h) (effects d) 0 (h, [])). simpl. lia.
Qed.

End EffectTimelineObjects.

(** ** CorrelationHeatmap: the annotations *)

Module CorrelationHeatmapFacts.
Import CorrelationHeatmap.

Lemma concat_length {B} (rows : list (list B)) :
  length (concat rows) = sum_list (length <$> rows).
Proof. induction rows as [|row rows IH]; simpl; [done|]. by rewrite length_app, IH. Qed.

Lemma concat_lookup_uniform {B} (rows : list (list B)) (n : nat) : ∀ i j row v,
  Forall (λ r, length r = n) rows →
  rows !! i = Some row → row !! j = Some v →
  concat rows !! (i * n + j) = Some v.
Proof.
  induction rows as [|r rows IH]; intros i j row v Hn Hrow Hv; [done|].
  apply Forall_cons in Hn as [Hr Hrows].
  destruct i as [|i]; simpl in *.
  - injection Hrow as ->. by apply lookup_app_l_Some.
  - rewrite lookup_app_r by lia.
    replace (n + i * n + j - length r) with (i * n + j) by lia.
    by eapply IH.
Qed.

Section Annotations.
Variable toFixed : Q → nat → string.

Lemma annotation_rows_length assets (M : list (list Q)) :
  length <$> imap (λ i row, imap (annotate toFixed assets i) row) M
  = length <$> M.
Proof.
  apply list_eq. intros i.
  rewrite !list_lookup_fmap, list_lookup_imap.
  destruct (M !! i); simpl; [|done]. by rewrite length_imap.
Qed.

(** X8. There is one annotation for each value of the matrix, whatever
    the lengths of its rows and however many assets there are. *)
Theorem annotations_count (assets : list string) (M : list (list Q)) :
  length (annotations toFixed assets M) = sum_list (length <$> M).
Proof.
  unfold annotations. by rewrite concat_length, annotation_rows_length.
Qed.

(** X9. In a matrix whose rows all have [n] values, the annotation of the
    value in row [i], column [j] is the one at position [i * n + j]; it is
    placed at the asset of the column on the x axis and at the asset of the
    row on the y axis. *)
Theorem annotation_position (assets : list string) (M : list (list Q))
    (n i j : nat) (row : list Q) (val : Q) :
  Forall (λ r, length r = n) M →
  M !! i = Some row →
  row !! j = Some val →
  annotations toFixed assets M !! (i * n + j)
  = Some {| text := toFixed val 2;
            x := assets !! j;
            y := assets !! i;
            font_color := color val |}.
Proof.
  intros Hn Hrow Hval. unfold annotations.
  apply concat_lookup_uniform with (imap (annotate toFixed assets i) row).
  - apply Forall_forall. intros r Hr.
    apply list_elem_of_lookup in Hr as [k Hk].
    rewrite list_lookup_imap in Hk.
    destruct (M !! k) as [r'|] eqn:Hr'; [|done].
    injection Hk as <-. rewrite length_imap.
    rewrite Forall_forall in Hn. apply Hn. by eapply list_elem_of_lookup_2.
  - by rewrite list_lookup_imap, Hrow.
  - by rewrite list_lookup_imap, Hval.
Qed.
End Annotations.

Lemma annotation_position_witness :
  annotations (λ _ _, "-0.25"%string) ["AAPL"; "MSFT"]%string
    [ [1; -1 # 4]; [-1 # 4; 1] ]%Q !! (1 * 2 + 0)
  = Some {| text := "-0.25";
            x := ["AAPL"; "MSFT"]%string !! 0;
            y := ["AAPL"; "MSFT"]%string !! 1;
            font_color := color (-1 # 4) |}.
Proof.
  apply (annotation_position (λ _ _, "-0.25"%string) ["AAPL"; "MSFT"]%string
           [ [1; -1 # 4]; [-1 # 4; 1] ]%Q 2 1 0 [-1 # 4; 1]%Q (-1 # 4)%Q).
  - repeat constructor.
  - reflexivity.
  - reflexivity.
Defined.

End CorrelationHeatmapFacts.

(** ** DatasetSelector: selecting, removing, loading *)

Module DatasetSelectorMore.
Import DatasetSelector DatasetSelectorComponent.
Local Open Scope string_scope.

Lemma click_remove_filter dataset l :
  click_remove dataset l = filter (λ d, d ≠ "") l.
Proof. reflexivity. Qed.

Lemma change_select_snoc chosen l : change_select chosen l = (l ++ [chosen])%list.
Proof. reflexivity. Qed.

(** X10. Choosing an option of the select appends its value to the list:
    the placeholder adds an empty entry, and every other option, being the
    name of a dataset already in the list, adds that name a second time. *)
Theorem select_appends_duplicate (chosen : string) (datasets : list string) :
  chosen ∈ "" :: datasets →
  change_select chosen datasets = (datasets ++ [chosen])%list
  ∧ (chosen = "" ∨ ¬ NoDup (change_select chosen datasets)).
Proof.
  intros Hin. split; [done|].
  apply elem_of_cons in Hin as [->|Hin]; [by left|]. right.
  rewrite change_select_snoc. intros Hnd.
  apply NoDup_app in Hnd as (_ & Hdis & _).
  apply (Hdis chosen Hin). apply list_elem_of_here.
Qed.

Lemma select_appends_duplicate_witness :
  change_select "prices.csv" ["prices.csv"; "fx.parquet"]
  = (["prices.csv"; "fx.parquet"] ++ ["prices.csv"])%list
  ∧ ("prices.csv" = ""
     ∨ ¬ NoDup (change_select "prices.csv" ["prices.csv"; "fx.parquet"])).
Proof.
  apply (select_appends_duplicate "prices.csv" ["prices.csv"; "fx.parquet"]).
  apply list_elem_of_further, list_elem_of_here.
Defined.

(** X11. A click on the remove button of any chip removes the empty entries
    of the list and nothing else, keeping the order of the rest; a second
    click changes nothing more; and the click takes back the entry that
    choosing the placeholder has added. *)
Theorem click_remove_drops_empty (dataset other : string) (datasets : list string) :
  click_remove dataset datasets = filter (λ d, d ≠ "") datasets
  ∧ (∀ name, name ∈ click_remove dataset datasets ↔ name ∈ datasets ∧ name ≠ "")
  ∧ click_remove other (click_remove dataset datasets)
    = click_remove dataset datasets
  ∧ click_remove dataset (change_select "" datasets)
    = click_remove dataset datasets.
Proof.
  split; [done|]. split; [|split].
  - intros name. rewrite click_remove_filter, list_elem_of_filter. tauto.
  - rewrite !click_remove_filter. apply DatasetSelectorFacts.filter_keeps_all.
    rewrite list_elem_of_filter. tauto.
  - rewrite change_select_snoc, !click_remove_filter, filter_app.
    rewrite filter_cons_False by tauto. by rewrite filter_nil, app_nil_r.
Qed.

Lemma loaded_invariant (response : list string) (st : state) :
  reachable_from (handle (FetchResolved response) initial) st →
  loading st = false ∧ error st = None
  ∧ ∀ name, name ≠ "" → (name ∈ datasets st ↔ name ∈ response).
Proof.
  induction 1 as [|ev st _ (Hl & He & Hn) Hen]; [done|].
  destruct ev as [ds | | chosen | dataset]; simpl in Hen.
  - congruence.
  - congruence.
  - destruct Hen as (options & chips & Hview & Hin).
    unfold render in Hview. rewrite Hl, He in Hview. simpl in Hview.
    injection Hview as <- <-.
    split; [done|]. split; [done|]. intros name Hname. simpl.
    change (handleDatasetChange (Select chosen) "add" (datasets st))
      with ((datasets st ++ [chosen])%list).
    rewrite elem_of_app, list_elem_of_singleton, <- (Hn name Hname).
    split; [|tauto]. intros [?| ->]; [done|].
    apply elem_of_cons in Hin as [->|?]; done.
  - split; [done|]. split; [done|]. intros name Hname. simpl.
    change (handleDatasetChange (remove_button dataset) "remove" (datasets st))
      with (filter (λ d, d ≠ "") (datasets st)).
    rewrite list_elem_of_filter, <- (Hn name Hname). tauto.
Qed.

(** X12. After the list of datasets has been fetched, whatever the user
    does with the select and the chips, the component shows the select and
    the chips, and the names in its list are the names of the response:
    none can be removed and no other can be added. *)
Theorem loaded_names_fixed (response : list string) (st : state) :
  reachable_from (handle (FetchResolved response) initial) st →
  render st = MainView ("" :: datasets st) (datasets st)
  ∧ ∀ name, name ≠ "" → (name ∈ datasets st ↔ name ∈ response).
Proof.
  intros Hr. destruct (loaded_invariant _ _ Hr) as (Hl & He & Hn).
  split; [|done]. unfold render. by rewrite Hl, He.
Qed.

Lemma loaded_names_fixed_witness :
  render (handle (RemoveClick "fx.parquet")
            (handle (FetchResolved ["prices.csv"; "fx.parquet"]) initial))
  = MainView ("" :: datasets (handle (RemoveClick "fx.parquet")
                     (handle (FetchResolved ["prices.csv"; "fx.parquet"]) initial)))
             (datasets (handle (RemoveClick "fx.parquet")
                (handle (FetchResolved ["prices.csv"; "fx.parquet"]) initial)))
  ∧ ∀ name, name ≠ "" →
      (name ∈ datasets (handle (RemoveClick "fx.parquet")
                 (handle (FetchResolved ["prices.csv"; "fx.parquet"]) initial))
       ↔ name ∈ ["prices.csv"; "fx.parquet"]).
Proof.
  apply (loaded_names_fixed ["prices.csv"; "fx.parquet"]
           (handle (RemoveClick "fx.parquet")
              (handle (FetchResolved ["prices.csv"; "fx.parquet"]) initial))).
  apply reachable_next; [apply reachable_here|].
  simpl. eexists _, _. split; [reflexivity|].
  apply list_elem_of_further, list_elem_of_here.
Defined.

(** X13. After the fetch has failed, the component shows the error notice
    with the message "Failed to load datasets" for good: no event can
    happen any more and the state stays as the failure left it. *)
Theorem failed_fetch_is_final (st : state) :
  reachable_from (handle FetchRejected initial) st →
  st = handle FetchRejected initial
  ∧ render st = ErrorView "Failed to load datasets".
Proof.
  induction 1 as [|ev st _ [-> Hview] Hen]; [done|].
  destruct ev as [ds | | chosen | dataset]; simpl in Hen.
  - done.
  - done.
  - by destruct Hen as (options & chips & Hmain & _).
  - by destruct Hen as (options & chips & Hmain & _).
Qed.

Lemma failed_fetch_is_final_witness :
  handle FetchRejected initial = handle FetchRejected initial
  ∧ render (handle FetchRejected initial) = ErrorView "Failed to load datasets".
Proof.
  apply (failed_fetch_is_final (handle FetchRejected initial)).
  apply reachable_here.
Defined.

End DatasetSelectorMore.

(** ** Dashboard: what the request can carry *)

Module DashboardPageFacts.
Import DashboardPage.
Local Open Scope string_scope.

Lemma run_invariant evs : ∀ st w,
  Dashboard.windowSize (dashboard st) = w →
  Dashboard.selectedFeatures (dashboard st) = [] →
  Dashboard.selectedDataset (dashboard st) = "" →
  Dashboard.windowSize (dashboard (run evs st))
  = foldl (λ w ev, match ev with WindowSizeInput n => n | Selector _ => w end) w evs
  ∧ Dashboard.selectedFeatures (dashboard (run evs st)) = []
  ∧ Dashboard.selectedDataset (dashboard (run evs st)) = "".
Proof.
  induction evs as [|ev evs IH]; intros st w Hw Hf Hd; [done|].
  unfold run in *. simpl. apply IH; by destruct ev.
Qed.

(** X14. Whatever the user does on the page, in any order, the selected
    features stay the empty array and the selected dataset stays the empty
    string: the request to the analyze endpoint carries the number last
    typed in the window-size input, 30 before any, and an empty array of
    features, and nothing of what was chosen in the dataset selector. *)
Theorem request_ignores_selection (evs : list event) :
  Dashboard.selectedFeatures (dashboard (run evs initial)) = []
  ∧ Dashboard.selectedDataset (dashboard (run evs initial)) = ""
  ∧ Dashboard.handleAnalysis_body (dashboard (run evs initial))
    = {[ "window_size" := VNum (last_window_size evs); "features" := VArr [] ]}.
Proof.
  destruct (run_invariant evs initial 30%Q) as (Hw & Hf & Hd); [done..|].
  split; [done|]. split; [done|].
  unfold Dashboard.handleAnalysis_body, last_window_size. by rewrite Hw, Hf.
Qed.

End DashboardPageFacts.

(** ** The analysis store: its shape and the order of calls *)

Module AnalysisStoreMore.
Import AnalysisStore.
Local Open Scope string_scope.

Lemma perform_keeps_key c k (state : gmap string jsval) :
  is_Some (state !! k) → is_Some (perform c state !! k).
Proof.
  intros Hk. destruct c; simpl;
    unfold setAnalysisResults, setIsLoading, setError;
    rewrite AnalysisStoreFacts.set_singleton, lookup_insert_is_Some; tauto.
Qed.

Lemma perform_keeps_setter c k (state : gmap string jsval) :
  k ∉ ["analysisResults"; "isLoading"; "error"] →
  perform c state !! k = state !! k.
Proof.
  intros Hk. destruct c; simpl;
    unfold setAnalysisResults, setIsLoading, setError;
    apply AnalysisStoreFacts.set_singleton_other; intros <-; apply Hk;
    repeat constructor.
Qed.

Lemma perform_dom c (state : gmap string jsval) :
  is_Some (state !! "analysisResults") →
  is_Some (state !! "isLoading") →
  is_Some (state !! "error") →
  dom (perform c state) = dom state.
Proof.
  intros Hr Hl He. destruct c; simpl;
    unfold setAnalysisResults, setIsLoading, setError;
    rewrite AnalysisStoreFacts.set_singleton;
    by apply dom_insert_lookup_L.
Qed.

Lemma run_keeps_shape calls : ∀ state : gmap string jsval,
  is_Some (state !! "analysisResults") →
  is_Some (state !! "isLoading") →
  is_Some (state !! "error") →
  dom (run calls state) = dom state
  ∧ ∀ k, k ∉ ["analysisResults"; "isLoading"; "error"] →
         run calls state !! k = state !! k.
Proof.
  induction calls as [|cc rest IH]; intros state Hr Hl He; [done|].
  unfold run in *. simpl.
  destruct (IH (perform cc.2 state)) as [Hd Hk]; [by apply perform_keeps_key..|].
  split.
  - by rewrite Hd, perform_dom.
  - intros k Hnot. by rewrite Hk, perform_keeps_setter.
Qed.

(** X15. Whatever calls of the setters are made, with whatever arguments,
    the store keeps the six keys it was created with, and its three setter
    functions stay in place. *)
Theorem store_keeps_shape (calls : list (component * call)) :
  dom (run calls initial)
  = {[ "analysisResults"; "setAnalysisResults"; "isLoading"; "setIsLoading";
       "error"; "setError" ]}
  ∧ run calls initial !! "setAnalysisResults" = Some (VFun "setAnalysisResults")
  ∧ run calls initial !! "setIsLoading" = Some (VFun "setIsLoading")
  ∧ run calls initial !! "setError" = Some (VFun "setError").
Proof.
  destruct (run_keeps_shape calls initial) as [Hd Hk]; [by eexists..|].
  split.
  - rewrite Hd. unfold initial. by rewrite !dom_insert_L, dom_singleton_L.
  - repeat split; rewrite Hk; try done;
      intros H; repeat (apply elem_of_cons in H as [H|H]; [discriminate H|]);
      by apply elem_of_nil in H.
Qed.

Lemma set_singleton_commute k1 k2 v1 v2 (state : gmap string jsval) :
  k1 ≠ k2 →
  set {[ k1 := v1 ]} (set {[ k2 := v2 ]} state)
  = set {[ k2 := v2 ]} (set {[ k1 := v1 ]} state).
Proof.
  intros H. rewrite !AnalysisStoreFacts.set_singleton. by apply insert_insert_ne.
Qed.

Lemma set_singleton_twice k v1 v2 (state : gmap string jsval) :
  set {[ k := v1 ]} (set {[ k := v2 ]} state) = set {[ k := v1 ]} state.
Proof. rewrite !AnalysisStoreFacts.set_singleton. apply insert_insert_eq. Qed.

(** X16. Calls of two different setters give the same store in either
    order, and of two calls of the same setter only the later one counts. *)
Theorem setters_commute_and_overwrite (a b : jsval) (state : gmap string jsval) :
  (setIsLoading a (setError b state) = setError b (setIsLoading a state)
   ∧ setIsLoading a (setAnalysisResults b state)
     = setAnalysisResults b (setIsLoading a state)
   ∧ setError a (setAnalysisResults b state)
     = setAnalysisResults b (setError a state))
  ∧ (setIsLoading a (setIsLoading b state) = setIsLoading a state
     ∧ setError a (setError b state) = setError a state
     ∧ setAnalysisResults a (setAnalysisResults b state)
       = setAnalysisResults a state).
Proof.
  unfold setIsLoading, setError, setAnalysisResults.
  repeat split; first [ by apply set_singleton_commute | apply set_singleton_twice ].
Qed.

End AnalysisStoreMore.

(** ** AnalysisControls: the order of changes *)

Module AnalysisControlsMore.
Import AnalysisControls AnalysisControlsEvents.
Local Open Scope string_scope.



(** X18. Of two changes of the same control only the later one counts. *)
Theorem later_change_wins (ev1 ev2 : event) (params : gmap string jsval) :
  source ev1 = source ev2 →
  handle ev1 (handle ev2 params) = handle ev1 params.
Proof.
  intros Heq.
  destruct ev1, ev2; simpl in *; try done.
  - apply insert_insert_eq.
  - rewrite (insert_insert_ne _ "endDate" "startDate") by done.
    rewrite insert_insert_eq.
    rewrite (insert_insert_ne _ "startDate" "endDate") by done.
    by rewrite insert_insert_eq.
  - apply insert_insert_eq.
  - apply insert_insert_eq.
Qed.

Lemma later_change_wins_witness :
  handle (LambdaChange (3 # 2)) (handle (LambdaChange (5 # 2)) initial)
  = handle (LambdaChange (3 # 2)) initial.
Proof.
  apply (later_change_wins (LambdaChange (3 # 2)) (LambdaChange (5 # 2)) initial).
  reflexivity.
Defined.

(** X19. In every state the controls can be in, the assets of the
    parameters handed to [onAnalyze] are an array whose elements are all
    among the options of the assets Select. *)
Theorem assets_among_options (availableAssets : list string)
    (params : gmap string jsval) :
  reachable availableAssets params →
  ∃ values, handleSubmit params !! "assets" = Some (VArr values)
            ∧ values ⊆ availableAssets.
Proof.
  unfold handleSubmit.
  induction 1 as [|ev params _ (values & Hv & Hsub) Hev].
  - exists []. split; [done|]. apply list_subseteq_nil.
  - destruct ev as [selected | startDate endDate | selected | value]; simpl in *.
    + exists selected. split; [apply lookup_insert_eq | done].
    + exists values. split; [|done]. by rewrite !lookup_insert_ne.
    + exists values. split; [|done]. by rewrite lookup_insert_ne.
    + exists values. split; [|done]. by rewrite lookup_insert_ne.
Qed.

Lemma assets_among_options_witness :
  ∃ values,
    handleSubmit (handle (AssetsChange ["MSFT"]) initial) !! "assets"
    = Some (VArr values)
    ∧ values ⊆ ["AAPL"; "MSFT"].
Proof.
  apply (assets_among_options ["AAPL"; "MSFT"] (handle (AssetsChange ["MSFT"]) initial)).
  apply reachable_handle; [apply reachable_initial|].
  simpl. intros a Ha. apply list_elem_of_singleton in Ha as ->.
  apply list_elem_of_further, list_elem_of_here.
Defined.

End AnalysisControlsMore.
